(** * Ticket list synchronisation: reducer, push channel, query service, token refresh

    A shallow embedding of three source files of the repository:
    - [frontend/src/components/TicketsList/index.js]: the [reducer] of the
      ticket list and the socket handler that feeds it;
    - the ticket query service ([ListTicketsService] and
      [ListTicketsServiceInternal]);
    - [backend/src/services/AuthServices/RefreshTokenService.ts].

    JavaScript arrays are lists, accessed by index with stdpp's lookup,
    insert and delete; numbers that are database keys or counters are [Z];
    [null]/[undefined] fields are [option]; thrown values are an explicit
    error type. *)

From Stdlib Require Import ZArith Ascii String.
From stdpp Require Import base option list strings gmap.

Open Scope string_scope.
Open Scope list_scope.
Open Scope Z_scope.

(** ** Data model *)

Module Model.

(** A ticket as the list and the query service read it.  The field [id] of
    the source is [tid] here ([id] is the identity function of the
    library).  [payload] stands for the display attributes (contact, tags,
    last message): two tickets with the same [tid] can differ in it. *)
Record Ticket := mkTicket {
  tid : Z;
  unreadMessages : Z;
  queueId : option Z;
  userId : option Z;
  status : string;
  createdAt : Z;
  updatedAt : Z;
  payload : string
}.

#[global] Instance Ticket_eq_dec : EqDecision Ticket.
Proof. solve_decision. Defined.

(** The ids of a list of tickets, in list order. *)
Definition ids (l : list Ticket) : list Z := tid <$> l.

(** JavaScript truthiness of a nullable number: [null], [undefined] and [0]
    are falsy. *)
Definition falsy (v : option Z) : bool :=
  match v with
  | None => true
  | Some n => n =? 0
  end.

(** Thrown values: an [Error] object has a [name] and a [message]; the
    repository's [AppError] has a message and an HTTP status and no
    [name]. *)
Inductive Exn :=
  | JsError (name message : string)
  | AppError (message : string) (statusCode : Z).

(** [error.name]; [None] is [undefined]. *)
Definition exn_name (e : Exn) : option string :=
  match e with
  | JsError n _ => Some n
  | AppError _ _ => None
  end.

(** [new Error(message)] *)
Definition newError (message : string) : Exn := JsError "Error" message.

(** A computation that returns or throws. *)
Definition Result (A : Type) : Type := Exn + A.

Definition ret {A} (a : A) : Result A := inr a.
Definition throw {A} (e : Exn) : Result A := inl e.
Definition bind {A B} (m : Result A) (k : A → Result B) : Result B :=
  match m with
  | inl e => inl e
  | inr a => k a
  end.

(** A queue and an operator, as the services read them. *)
Record Queue := mkQueue { queue_id : Z }.

Record User := mkUser {
  user_key : Z;
  queues : list Queue;
  tokenVersion : Z
}.

End Model.

Declare Scope result_scope.
Delimit Scope result_scope with result.
Notation "'let*' x ':=' m 'in' k" := (Model.bind m (fun x => k))
  (at level 10, x pattern, m at level 100, k at level 200) : result_scope.

(** Sample data for running the definitions: a ticket with the given id
    and unread count, without queue or operator. *)
Definition sampleTicket (i unread : Z) : Model.Ticket :=
  Model.mkTicket i unread None None "open" 0 0 "".

(** ** The reducer of [TicketsList/index.js] *)

Module TicketsList.
Import Model.

(** [dispatch] sends one of these; [OTHER] is any action type the [switch]
    does not name. *)
Inductive Action :=
  | LOAD_TICKETS (payload : list Ticket)
  | RESET
  | OTHER (type : string).

(** [updatedState.findIndex((t) => t.id === ticket.id)]; [None] is [-1]. *)
Definition findIndex (k : Z) (l : list Ticket) : option nat :=
  fst <$> list_find (λ t, tid t = k) l.

(** The body of [newTickets.forEach]: one ticket merged into the working
    copy [updatedState]. *)
Definition mergeTicket (updatedState : list Ticket) (ticket : Ticket) : list Ticket :=
  match findIndex (tid ticket) updatedState with
  | Some index =>
      (* updatedState[index] = ticket *)
      let replaced := <[index := ticket]> updatedState in
      if bool_decide (0 < unreadMessages ticket) then
        (* updatedState.unshift(updatedState.splice(index, 1)[0]) *)
        match replaced !! index with
        | Some moved => moved :: delete index replaced
        | None => replaced (* not reached: [index] comes from [findIndex] *)
        end
      else replaced
  | None =>
      (* updatedState.push(ticket) *)
      updatedState ++ [ticket]
  end.

Definition reducer (state : list Ticket) (action : Action) : list Ticket :=
  match action with
  | LOAD_TICKETS newTickets => foldl mergeTicket state newTickets
  | RESET => []
  | OTHER _ => state
  end.

(** A sequence of dispatched actions, applied in order. *)
Definition dispatchAll (state : list Ticket) (actions : list Action) : list Ticket :=
  foldl reducer state actions.

(** Moving the first entry with id [k] to the front of a list, the other
    entries keeping their order; a list without that id is unchanged. *)
Definition moveToFront (k : Z) (l : list Ticket) : list Ticket :=
  match list_find (λ t, tid t = k) l with
  | Some (i, x) => x :: delete i l
  | None => l
  end.

(** Of the two ids [a] and [b], the one met first when the ids [L] of a
    list are read from the front. *)
Definition firstOf (a b : Z) (L : list Z) : option Z :=
  head (filter (λ z, z = a ∨ z = b) L).

(** *** The component around the reducer *)

(** What the socket effect closes over: [user?.id], the [showAll] prop and
    the [selectedQueueIds] prop. *)
Record Env := mkEnv {
  user_id : option Z;
  showAll : bool;
  selectedQueueIds : list Z
}.

(** [selectedQueueIds.includes(q)] *)
Definition includes (l : list Z) (q : Z) : bool := existsb (Z.eqb q) l.

(** [ticket.queueId] handed to [includes]: [null] is never a member of a
    list of numbers. *)
Definition includesNullable (l : list Z) (q : option Z) : bool :=
  match q with
  | Some n => includes l n
  | None => false
  end.

Definition shouldUpdateTicket (env : Env) (ticket : Ticket) : bool :=
  (falsy (userId ticket)
   || bool_decide (userId ticket = user_id env)
   || showAll env)
  && (falsy (queueId ticket)
      || includesNullable (selectedQueueIds env) (queueId ticket)).

(** The data of a ["ticket"] socket event. *)
Record SocketData := mkSocketData {
  action : string;
  ticket : option Ticket
}.

(** The callback of [socket.on("ticket", ...)]: the actions it dispatches,
    in order.  [None] is the [TypeError] of reading [userId] of a missing
    ticket. *)
Definition onTicket (env : Env) (data : SocketData) : option (list Action) :=
  first ←
    (if String.eqb (action data) "update" then
       match ticket data with
       | Some t => Some (if shouldUpdateTicket env t then [LOAD_TICKETS [t]] else [])
       | None => None
       end
     else Some []);
  Some (first ++ (if String.eqb (action data) "delete" then [RESET] else [])).

(** The list after the callback ran on [state]. *)
Definition handleTicketEvent (env : Env) (state : list Ticket) (data : SocketData)
  : option (list Ticket) :=
  dispatchAll state <$> onTicket env data.

(** The part of the component's state the effects write. *)
Record Component := mkComponent {
  pageNumber : Z;
  ticketsList : list Ticket
}.

(** The effect that runs when [status], [searchParam], [showAll],
    [selectedQueueIds] or [tags] change: [dispatch({ type: "RESET" })] and
    [setPageNumber(1)]. *)
Definition onFilterChange (c : Component) : Component :=
  {| pageNumber := 1; ticketsList := reducer (ticketsList c) RESET |}.

(** The first effect of the component (lines 106-114): it runs when the
    fetched [tickets] change.  A ticket read from the server has a number
    or [null] as its [queueId]. *)
Definition inQueues (queueIds : list Z) (t : Ticket) : bool :=
  includesNullable queueIds (queueId t) || bool_decide (queueId t = None).

Definition loadPayload (profile : string) (queues : list Queue)
    (tickets : list Ticket) : list Ticket :=
  let queueIds := map queue_id queues in
  let filteredTickets := filter (λ t, inQueues queueIds t = true) tickets in
  if String.eqb profile "user" then filteredTickets else tickets.

Definition onTicketsFetched (profile : string) (queues : list Queue)
    (tickets : list Ticket) (c : Component) : Component :=
  {| pageNumber := pageNumber c;
     ticketsList := reducer (ticketsList c)
                      (LOAD_TICKETS (loadPayload profile queues tickets)) |}.

(** [handleScroll] (lines 155-162), with [loading] and [hasMore] as the
    hook gives them and the three measures of the scrolled element, in
    whole pixels. *)
Definition handleScroll (loading hasMore : bool)
    (scrollTop scrollHeight clientHeight : Z) (c : Component) : Component :=
  if loading || negb hasMore then c
  else if scrollHeight - scrollTop - clientHeight <? 100
       then {| pageNumber := pageNumber c + 1; ticketsList := ticketsList c |}
       else c.

(** One scroll event: the hook's flags and the measures at that moment. *)
Record ScrollEvent := mkScrollEvent {
  ev_loading : bool;
  ev_hasMore : bool;
  ev_scrollTop : Z;
  ev_scrollHeight : Z;
  ev_clientHeight : Z
}.

Definition scrollAll (c : Component) (events : list ScrollEvent) : Component :=
  foldl (λ c e, handleScroll (ev_loading e) (ev_hasMore e) (ev_scrollTop e)
                  (ev_scrollHeight e) (ev_clientHeight e) c) c events.

End TicketsList.

(** ** The ticket query service *)

Module ListTickets.
Import Model.

(** The numbers the service computes with: integers and [NaN] (what unary
    [+] gives for a string that is not a number).  Numbers that are not
    integers are outside this model. *)
Inductive Num :=
  | NaN
  | Int (n : Z).

Definition num_add (a b : Num) : Num :=
  match a, b with
  | Int x, Int y => Int (x + y)
  | _, _ => NaN
  end.

Definition num_sub (a b : Num) : Num :=
  match a, b with
  | Int x, Int y => Int (x - y)
  | _, _ => NaN
  end.

Definition num_mul (a b : Num) : Num :=
  match a, b with
  | Int x, Int y => Int (x * y)
  | _, _ => NaN
  end.

(** [a > b]: false as soon as one side is [NaN]. *)
Definition num_gt (a b : Num) : bool :=
  match a, b with
  | Int x, Int y => bool_decide (y < x)
  | _, _ => false
  end.

(** [interface Request].  An absent optional field is [None].  [userId] is
    typed [string] in the source and compared by the data store with the
    integer column of the same name: it is the integer here. *)
Record Request := mkRequest {
  searchParam : option string;
  pageNumber : option string;
  status : option string;
  date : option string;
  updatedAt : option string;
  showAll : option string;
  userId : Z;
  withUnreadMessages : option string;
  queueIds : list Z;
  tags : list Z
}.

(** [interface Response] *)
Record Response := mkResponse {
  tickets : list Ticket;
  count : Z;
  hasMore : bool
}.

(** A row of the ticket/tag association. *)
Record TicketTag := mkTicketTag {
  ticketId : Z;
  tagId : Z
}.

(** *** The condition object

    [whereCondition] is a JavaScript object: one optional entry per key the
    service ever writes.  Spreading [{ ...whereCondition, key: v }] keeps
    the other keys and overwrites [key]. *)

(** The two values the key [Op.or] takes. *)
Inductive OrClause :=
  | OwnerOrPending (userId : Z)
      (* [{ userId }, { status: "pending" }] *)
  | SearchAny (sanitizedSearchParam : string).
      (* contact name, contact number or message body LIKE %param% *)

Record Where := mkWhere {
  w_or : option OrClause;            (* [Op.or] *)
  w_queueId : option (list Z);       (* queueId: { [Op.or]: [ids, null] } *)
  w_status : option string;          (* status *)
  w_createdAt : option (Num * Num);  (* createdAt: { [Op.between]: [lo, hi] } *)
  w_updatedAt : option (Num * Num);  (* updatedAt: { [Op.between]: [lo, hi] } *)
  w_unreadMessages : option Z;       (* unreadMessages: { [Op.gt]: n } *)
  w_id : option (list Z)             (* id: { [Op.in]: ids } *)
}.

Definition set_or (v : OrClause) (w : Where) : Where :=
  mkWhere (Some v) (w_queueId w) (w_status w) (w_createdAt w) (w_updatedAt w)
          (w_unreadMessages w) (w_id w).

Definition set_status (v : string) (w : Where) : Where :=
  mkWhere (w_or w) (w_queueId w) (Some v) (w_createdAt w) (w_updatedAt w)
          (w_unreadMessages w) (w_id w).

Definition set_createdAt (v : Num * Num) (w : Where) : Where :=
  mkWhere (w_or w) (w_queueId w) (w_status w) (Some v) (w_updatedAt w)
          (w_unreadMessages w) (w_id w).

Definition set_updatedAt (v : Num * Num) (w : Where) : Where :=
  mkWhere (w_or w) (w_queueId w) (w_status w) (w_createdAt w) (Some v)
          (w_unreadMessages w) (w_id w).

Definition set_id (v : list Z) (w : Where) : Where :=
  mkWhere (w_or w) (w_queueId w) (w_status w) (w_createdAt w) (w_updatedAt w)
          (w_unreadMessages w) (Some v).

(** The entries of [includeCondition]. *)
Inductive Include :=
  | IncContact
  | IncQueue
  | IncWhatsapp
  | IncTags
  | IncMessages (sanitizedSearchParam : string).

(** The argument of [Ticket.findAndCountAll]. *)
Record Query := mkQuery {
  q_where : Where;
  q_include : list Include;
  q_distinct : bool;
  q_limit : Z;
  q_offset : Num;
  q_order : list (string * string);
  q_subQuery : bool
}.

(** What the service calls and does not define: the user service, the two
    model queries, and the language and library primitives it applies to
    strings. *)
Record Collaborators := mkCollaborators {
  ShowUserService : Z → Result User;
  (* TicketTag.findAll({ where: { tagId: { [Op.in]: tags } } }) *)
  TicketTag_findAll : list Z → Result (list TicketTag);
  Ticket_findAndCountAll : Query → Result (Z * list Ticket);
  (* unary [+] on a string *)
  toNumber : string → Num;
  (* s.toLowerCase().trim() *)
  lowerTrim : string → string;
  (* +startOfDay(parseISO(s)) and +endOfDay(parseISO(s)) *)
  startOfDay : string → Num;
  endOfDay : string → Num
}.

(** JavaScript truthiness of an optional string: [undefined] and [""] are
    falsy. *)
Definition truthy (s : option string) : bool :=
  match s with
  | Some v => negb (String.eqb v "")
  | None => false
  end.

(** [s === "true"] *)
Definition isTrue (s : option string) : bool :=
  match s with
  | Some v => String.eqb v "true"
  | None => false
  end.

(** [uniq]: the values of a list, each once, in order of first occurrence. *)
Fixpoint uniqFrom (seen l : list Z) : list Z :=
  match l with
  | [] => []
  | x :: r =>
      if bool_decide (x ∈ seen) then uniqFrom seen r
      else x :: uniqFrom (x :: seen) r
  end.

(** lodash [intersection(...arrays)]: the unique values of the first array
    that every other array holds, in the order of the first array. *)
Definition intersection (arrays : list (list Z)) : list Z :=
  match arrays with
  | [] => []
  | first :: others =>
      uniqFrom [] (filter (λ x, forallb (λ a, bool_decide (x ∈ a)) others = true) first)
  end.

(** *** [ListTicketsServiceInternal] *)

Section Service.
Context (c : Collaborators).
Local Open Scope result_scope.

(** The initial [whereCondition] (lines 80-83). *)
Definition whereInitial (p : Request) : Where :=
  mkWhere (Some (OwnerOrPending (userId p))) (Some (queueIds p))
          None None None None None.

(** The initial [includeCondition] (lines 85-106). *)
Definition includeInitial : list Include :=
  [IncContact; IncQueue; IncWhatsapp; IncTags].

(** The conditions after the branches on [showAll], [status],
    [searchParam], [date] and [updatedAt] (lines 108-165); none of them
    awaits. *)
Definition composeFilters (p : Request) : Where * list Include :=
  let searchParam := default "" (searchParam p) in
  let whereCondition := whereInitial p in
  let includeCondition := includeInitial in
  let whereCondition :=
    if isTrue (showAll p)
    then mkWhere None (Some (queueIds p)) None None None None None
    else whereCondition in
  let whereCondition :=
    if truthy (status p)
    then set_status (default "" (status p)) whereCondition
    else whereCondition in
  let '(whereCondition, includeCondition) :=
    if truthy (Some searchParam) then
      let sanitizedSearchParam := lowerTrim c searchParam in
      (set_or (SearchAny sanitizedSearchParam) whereCondition,
       includeCondition ++ [IncMessages sanitizedSearchParam])
    else (whereCondition, includeCondition) in
  let whereCondition :=
    if truthy (date p)
    then set_createdAt (startOfDay c (default "" (date p)),
                        endOfDay c (default "" (date p))) whereCondition
    else whereCondition in
  let whereCondition :=
    if truthy (updatedAt p)
    then set_updatedAt (startOfDay c (default "" (updatedAt p)),
                        endOfDay c (default "" (updatedAt p))) whereCondition
    else whereCondition in
  (whereCondition, includeCondition).

(** The branch on [withUnreadMessages] (lines 167-176): the condition
    object is assigned anew, nothing of the old one is spread into it. *)
Definition applyUnread (p : Request) (whereCondition : Where) : Result Where :=
  if isTrue (withUnreadMessages p) then
    let* user := ShowUserService c (userId p) in
    let userQueueIds := map queue_id (queues user) in
    ret (mkWhere (Some (OwnerOrPending (userId p))) (Some userQueueIds)
                 None None None (Some 0) None)
  else ret whereCondition.

(** The ticket ids the tag lookup resolves to (lines 179-184). *)
Definition resolveTags (tags : list Z) : Result (list Z) :=
  let* ticketTags := TicketTag_findAll c tags in
  ret (intersection [map ticketId ticketTags]).

(** The branch on [tags] (lines 178-190). *)
Definition applyTags (p : Request) (whereCondition : Where) : Result Where :=
  if bool_decide (0 < Z.of_nat (length (tags p))) then
    let* ticketsIntersection := resolveTags (tags p) in
    ret (set_id ticketsIntersection whereCondition)
  else ret whereCondition.

(** The condition handed to the final query. *)
Definition buildWhere (p : Request) : Result Where :=
  let* whereCondition := applyUnread p (fst (composeFilters p)) in
  applyTags p whereCondition.

Definition limit : Z := 40.

(** [limit * (+pageNumber - 1)], with the default ["1"]. *)
Definition offsetOf (p : Request) : Num :=
  num_mul (Int limit) (num_sub (toNumber c (default "1" (pageNumber p))) (Int 1)).

(** [signal] is [signal?.aborted] as read on entry: [None] when no signal
    was passed.  The function reads the signal nowhere else. *)
Definition ListTicketsServiceInternal (p : Request) (signal : option bool)
  : Result Response :=
  if default false signal then throw (newError "Requisição cancelada")
  else
    let includeCondition := snd (composeFilters p) in
    let* whereCondition := buildWhere p in
    let offset := offsetOf p in
    let* (count, tickets) :=
      Ticket_findAndCountAll c
        (mkQuery whereCondition includeCondition true limit offset
                 [("updatedAt", "DESC")] false) in
    let hasMore :=
      num_gt (Int count) (num_add offset (Int (Z.of_nat (length tickets)))) in
    ret (mkResponse tickets count hasMore).

(** *** [ListTicketsService] and the shared controller

    [currentAbortController] is a module-level variable shared by all
    calls.  Controllers are objects on a heap, named by their allocation
    index; the flag stored for a controller is [signal.aborted]. *)

Record Runtime := mkRuntime {
  heap : list bool;
  currentAbortController : option nat
}.

(** [controller.abort()] *)
Definition abort (i : nat) (rt : Runtime) : Runtime :=
  mkRuntime (<[i := true]> (heap rt)) (currentAbortController rt).

(** A call that reached [await ListTicketsServiceInternal(...)]: its
    parameters, its own controller, and what the entry check of the
    internal function read from the signal. *)
Record Pending := mkPending {
  params : Request;
  controller : nat;
  entryAborted : bool
}.

(** The synchronous part of a call, up to the first [await] (lines 38-46
    and the entry check of the internal function, lines 76-78). *)
Definition ListTicketsService_start (rt : Runtime) (p : Request)
  : Runtime * Pending :=
  let rt :=
    match currentAbortController rt with
    | Some i => abort i rt
    | None => rt
    end in
  let fresh := length (heap rt) in
  let rt := mkRuntime (heap rt ++ [false]) (Some fresh) in
  (rt, mkPending p fresh (default false (heap rt !! fresh))).

(** The empty page of the [catch] block. *)
Definition emptyPage : Response := mkResponse [] 0 false.

(** The rest of the call, run when the internal function settles: the
    [return], the [catch] and the [finally] (lines 47-56). *)
Definition ListTicketsService_finish (rt : Runtime) (f : Pending)
  : Runtime * Result Response :=
  let outcome :=
    match ListTicketsServiceInternal (params f) (Some (entryAborted f)) with
    | inr result => ret result
    | inl error =>
        if bool_decide (exn_name error = Some "AbortError")
        then ret emptyPage
        else throw error
    end in
  (mkRuntime (heap rt) None, outcome).

(** A call that nothing interleaves with. *)
Definition ListTicketsService (rt : Runtime) (p : Request)
  : Runtime * Result Response :=
  let '(rt, f) := ListTicketsService_start rt p in
  ListTicketsService_finish rt f.

(** *** Interleaved calls

    The event loop runs the synchronous part of a call in one piece and
    resumes a suspended call later; other calls can start in between. *)
Inductive Step :=
  | Start (p : Request)
  | Finish (k : nat).

Record World := mkWorld {
  runtime : Runtime;
  started : list Pending;                  (* by start order *)
  settled : list (nat * Result Response)   (* by settle order *)
}.

Definition step (w : World) (s : Step) : World :=
  match s with
  | Start p =>
      let '(rt, f) := ListTicketsService_start (runtime w) p in
      mkWorld rt (started w ++ [f]) (settled w)
  | Finish k =>
      match started w !! k with
      | Some f =>
          if bool_decide (k ∈ map fst (settled w)) then w
          else
            let '(rt, r) := ListTicketsService_finish (runtime w) f in
            mkWorld rt (started w) (settled w ++ [(k, r)])
      | None => w
      end
  end.

Definition initialWorld : World := mkWorld (mkRuntime [] None) [] [].

Definition run (steps : list Step) : World := foldl step initialWorld steps.

(** Call [k] was superseded: its controller was aborted. *)
Definition superseded (w : World) (k : nat) : bool :=
  match started w !! k with
  | Some f => default false (heap (runtime w) !! controller f)
  | None => false
  end.

(** The result call [k] settled with, if it did. *)
Definition resultOf (w : World) (k : nat) : option (Result Response) :=
  (λ e, snd (snd e)) <$> list_find (λ e, fst e = k) (settled w).

(** An invariant of the worlds a run goes through: no started call tripped
    the entry check of the internal function, and every settled entry is
    what [ListTicketsService_finish] gives for the call of that number. *)
Definition settledAsFinished (w : World) : Prop :=
  (∀ k f, started w !! k = Some f → entryAborted f = false)
  ∧ (∀ k r, (k, r) ∈ settled w →
       ∃ f, started w !! k = Some f
            ∧ r = snd (ListTicketsService_finish (runtime w) f)).

End Service.

(** *** A data store in memory

    The data layer is outside the repository.  This instance answers the
    service's queries from tables held in memory, so that the service can
    be run: a row matches a condition object when it satisfies every entry
    of it. *)

Record Store := mkStore {
  st_tickets : list Ticket;
  st_ticketTags : list TicketTag;
  st_users : list User;
  (* the LIKE match of a search pattern against the contact and messages of
     a ticket, which [Ticket] does not carry *)
  st_matches : string → Ticket → bool;
  st_startOfDay : string → Num;
  st_endOfDay : string → Num
}.

Definition between (bounds : Num * Num) (v : Z) : bool :=
  match bounds with
  | (Int lo, Int hi) => (lo <=? v) && (v <=? hi)
  | _ => false
  end.

Definition evalOr (st : Store) (cl : OrClause) (t : Ticket) : bool :=
  match cl with
  | OwnerOrPending u =>
      bool_decide (Model.userId t = Some u) || String.eqb (Model.status t) "pending"
  | SearchAny pat => st_matches st pat t
  end.

(** [queueId: { [Op.or]: [ids, null] }]: in the list, or null. *)
Definition evalQueue (qs : list Z) (t : Ticket) : bool :=
  match queueId t with
  | None => true
  | Some q => bool_decide (q ∈ qs)
  end.

(** An absent entry restricts nothing. *)
Definition entry {A} (o : option A) (f : A → bool) : bool :=
  match o with
  | None => true
  | Some v => f v
  end.

Definition evalWhere (st : Store) (w : Where) (t : Ticket) : bool :=
  entry (w_or w) (λ cl, evalOr st cl t)
  && entry (w_queueId w) (λ qs, evalQueue qs t)
  && entry (w_status w) (λ s, String.eqb (Model.status t) s)
  && entry (w_createdAt w) (λ b, between b (createdAt t))
  && entry (w_updatedAt w) (λ b, between b (Model.updatedAt t))
  && entry (w_unreadMessages w) (λ n, bool_decide (n < unreadMessages t))
  && entry (w_id w) (λ l, bool_decide (tid t ∈ l)).

(** [order: [["updatedAt", "DESC"]]] *)
Fixpoint insertDesc (t : Ticket) (l : list Ticket) : list Ticket :=
  match l with
  | [] => [t]
  | x :: r =>
      if Model.updatedAt x <? Model.updatedAt t then t :: l
      else x :: insertDesc t r
  end.

Definition sortDesc (l : list Ticket) : list Ticket := foldr insertDesc [] l.

Definition databaseError : Exn := JsError "SequelizeDatabaseError" "invalid OFFSET".

(** The rows that match, newest first, cut to the page; the count is the
    number of matching tickets.  An offset that is [NaN] or negative is a
    query error. *)
Definition memFindAndCountAll (st : Store) (q : Query) : Result (Z * list Ticket) :=
  match q_offset q with
  | NaN => throw databaseError
  | Int o =>
      if o <? 0 then throw databaseError
      else
        let matching :=
          filter (λ t, evalWhere st (q_where q) t = true) (st_tickets st) in
        ret (Z.of_nat (length matching),
             take (Z.to_nat (q_limit q)) (drop (Z.to_nat o) (sortDesc matching)))
  end.

Definition memShowUser (st : Store) (k : Z) : Result User :=
  match list_find (λ u, user_key u = k) (st_users st) with
  | Some (_, u) => ret u
  | None => throw (AppError "ERR_NO_USER_FOUND" 404)
  end.

Definition memTicketTags (st : Store) (tags : list Z) : Result (list TicketTag) :=
  ret (filter (λ r, tagId r ∈ tags) (st_ticketTags st)).

(** Unary [+] on the strings this store is run with: [""] is 0, a run of
    decimal digits is its value, any other string reads as [NaN]. *)
Definition digitOf (a : ascii) : option Z :=
  let n := Z.of_N (N_of_ascii a) in
  if (48 <=? n) && (n <=? 57) then Some (n - 48) else None.

Fixpoint digitsFrom (acc : Z) (s : string) : option Z :=
  match s with
  | EmptyString => Some acc
  | String a r =>
      match digitOf a with
      | Some d => digitsFrom (10 * acc + d) r
      | None => None
      end
  end.

Definition decimalToNumber (s : string) : Num :=
  match digitsFrom 0 s with
  | Some n => Int n
  | None => NaN
  end.

(** [toLowerCase] on the letters A-Z. *)
Definition lowerAscii (a : ascii) : ascii :=
  let n := N_of_ascii a in
  if ((65 <=? n) && (n <=? 90))%N then ascii_of_N (n + 32) else a.

Definition isSpace (a : ascii) : bool :=
  let n := N_of_ascii a in
  ((n =? 32) || ((9 <=? n) && (n <=? 13)))%N.

Fixpoint dropSpaces (l : list ascii) : list ascii :=
  match l with
  | a :: r => if isSpace a then dropSpaces r else l
  | [] => []
  end.

Definition asciiLowerTrim (s : string) : string :=
  let l := map lowerAscii (list_ascii_of_string s) in
  string_of_list_ascii (rev (dropSpaces (rev (dropSpaces l)))).

Definition memory (st : Store) : Collaborators :=
  mkCollaborators (memShowUser st) (memTicketTags st) (memFindAndCountAll st)
                  decimalToNumber asciiLowerTrim
                  (st_startOfDay st) (st_endOfDay st).

(** The condition of rule 5 of the specification, in its words: the ticket
    belongs to the operator or is pending, its queue is one of the
    operator's own queues or null, and it has unread messages. *)
Definition unreadOnly (operator : Z) (ownQueues : list Z) (t : Ticket) : bool :=
  (bool_decide (Model.userId t = Some operator) || String.eqb (Model.status t) "pending")
  && match queueId t with
     | None => true
     | Some q => bool_decide (q ∈ ownQueues)
     end
  && bool_decide (0 < unreadMessages t).

(** *** Sample data *)

(** Two tickets, three tag associations, one operator with queue 4. *)
Definition sampleStore : Store :=
  mkStore
    [mkTicket 1 0 None (Some 1) "open" 0 5 "";
     mkTicket 2 3 (Some 4) None "pending" 0 9 ""]
    [mkTicketTag 1 7; mkTicketTag 2 7; mkTicketTag 1 8]
    [mkUser 1 [mkQueue 4] 0]
    (λ _ _, true) (λ _, Int 0) (λ _, Int 10).

(** Operator 1 asks for the first page of queue 4. *)
Definition sampleRequest : Request :=
  mkRequest None None None None None None 1 None [4] [].

(** The same request, for unread tickets only, with status and search set. *)
Definition unreadRequest : Request :=
  mkRequest (Some "Ana") None (Some "open") None None None 1 (Some "true") [9] [].

(** The same request, restricted to the tags [tags]. *)
Definition taggedRequest (tags : list Z) : Request :=
  mkRequest None None None None None None 1 None [4] tags.

(** A store of [n] tickets without queue or operator, and a request for
    page [page] of all of them. *)
Definition storeOf (n : nat) : Store :=
  mkStore (map (λ i, sampleTicket (Z.of_nat i) 0) (seq 1 n)) [] []
          (λ _ _, true) (λ _, Int 0) (λ _, Int 10).

Definition pageRequest (page : string) : Request :=
  mkRequest None (Some page) None None None (Some "true") 1 None [] [].

(** Two calls of the sample request, the second started before the first
    settles. *)
Definition overlappingCalls : list Step :=
  [Start sampleRequest; Start sampleRequest; Finish 0%nat; Finish 1%nat].

End ListTickets.

(** ** [RefreshTokenService] *)

Module RefreshToken.
Import Model.

(** [interface RefreshTokenPayload] *)
Record RefreshTokenPayload := mkPayload {
  payload_id : Z;
  payload_tokenVersion : Z
}.

(** [interface Response] *)
Record Response := mkResponse {
  user : User;
  newToken : string;
  refreshToken : string
}.

(** The response object [res], as far as the service touches it: the names
    handed to [clearCookie] so far, oldest first. *)
Record Res := mkRes {
  clearedCookies : list string
}.

(** What the service imports: [verify] of the token library, the configured
    secret, the user service and the two token helpers. *)
Record Collaborators := mkCollaborators {
  verify : string → string → Result RefreshTokenPayload;
  refreshSecret : string;
  ShowUserService : Z → Result User;
  createAccessToken : User → Result string;
  createRefreshToken : User → Result string
}.

(** A computation on [res] that returns or throws; what it did to [res]
    before throwing stays done. *)
Definition M (A : Type) : Type := Res → Res * Result A.

Definition mret {A} (a : A) : M A := λ res, (res, ret a).
Definition mthrow {A} (e : Exn) : M A := λ res, (res, throw e).
Definition mbind {A B} (m : M A) (k : A → M B) : M B :=
  λ res,
    match m res with
    | (res', inr a) => k a res'
    | (res', inl e) => (res', inl e)
    end.
Definition lift {A} (r : Result A) : M A := λ res, (res, r).

(** [try { body } catch (err) { handler err }] *)
Definition tryCatch {A} (body : M A) (handler : Exn → M A) : M A :=
  λ res,
    match body res with
    | (res', inl err) => handler err res'
    | done => done
    end.

(** [res.clearCookie(name)] *)
Definition clearCookie (name : string) : M unit :=
  λ res, (mkRes (clearedCookies res ++ [name]), ret tt).

Declare Scope effect_scope.
Delimit Scope effect_scope with effect.
Notation "'let!' x ':=' m 'in' k" := (mbind m (fun x => k))
  (at level 10, x pattern, m at level 100, k at level 200) : effect_scope.
Notation "m ';;;' k" := (mbind m (fun _ => k))
  (at level 100, k at level 200, right associativity) : effect_scope.

(** [!token]: a missing token and the empty string are falsy. *)
Definition missing (token : option string) : bool :=
  match token with
  | Some v => String.eqb v ""
  | None => true
  end.

Section Service.
Context (c : Collaborators).
Local Open Scope effect_scope.

Definition RefreshTokenService (token : option string) : M Response :=
  if missing token then
    clearCookie "jrt" ;;;
    mthrow (AppError "Refresh token não fornecido" 401)
  else
    tryCatch
      (let! decoded := lift (verify c (default "" token) (refreshSecret c)) in
       let id := payload_id decoded in
       let tokenVersion := payload_tokenVersion decoded in
       let! user := lift (ShowUserService c id) in
       if bool_decide (Model.tokenVersion user ≠ tokenVersion) then
         clearCookie "jrt" ;;;
         mthrow (AppError "Sessão expirada, autenticação necessária" 401)
       else
         let! newToken := lift (createAccessToken c user) in
         let! refreshToken := lift (createRefreshToken c user) in
         mret (mkResponse user newToken refreshToken))
      (λ err,
         clearCookie "jrt" ;;;
         mthrow (AppError "Sessão expirada ou token inválido" 401)).

End Service.

(** *** Sample data *)

(** A token service that accepts the token ["good"] for user 1 at version
    0 and the token ["stale"] for user 1 at version 5, and a user service
    that knows user 1 at version 0. *)
Definition sampleAuth : Collaborators :=
  mkCollaborators
    (λ tk secret,
       if String.eqb tk "good" then ret (mkPayload 1 0)
       else if String.eqb tk "stale" then ret (mkPayload 1 5)
       else throw (JsError "JsonWebTokenError" "invalid signature"))
    "secret"
    (λ k, if k =? 1 then ret (mkUser 1 [] 0)
          else throw (AppError "ERR_NO_USER_FOUND" 404))
    (λ u, ret "access")
    (λ u, ret "refresh").

End RefreshToken.

(** * Facts about the reducer *)

Section ReducerFacts.
Import Model TicketsList.

Implicit Types (s l : list Ticket) (t u v x : Ticket) (k : Z).

(** [findIndex] splits the list at the first entry with the id. *)
Lemma findIndex_Some_split l k i :
  findIndex k l = Some i →
  ∃ l1 x l2, l = l1 ++ x :: l2 ∧ length l1 = i ∧ tid x = k ∧ k ∉ ids l1.
Proof.
  unfold findIndex. intros H.
  destruct (list_find _ l) as [[j x]|] eqn:E; [|done]. simpl in H. injection H as ->.
  apply list_find_Some in E as (Hl & Hx & Hbefore).
  exists (take i l), x, (drop (S i) l). split_and!.
  - by rewrite take_drop_middle.
  - rewrite length_take. apply lookup_lt_Some in Hl. lia.
  - done.
  - unfold ids. intros (y & Hy & Hin)%list_elem_of_fmap.
    apply list_elem_of_lookup in Hin as [j Hj].
    apply lookup_take_Some in Hj as [Hj Hlt].
    by eapply Hbefore.
Qed.

Lemma insert_at_split l1 x l2 t :
  <[length l1 := t]> (l1 ++ x :: l2) = l1 ++ t :: l2.
Proof. rewrite insert_app_r_alt by lia. by rewrite Nat.sub_diag. Qed.

Lemma findIndex_None l k : findIndex k l = None ↔ k ∉ ids l.
Proof.
  unfold findIndex, ids. rewrite fmap_None, list_find_None, Forall_forall.
  rewrite list_elem_of_fmap. naive_solver.
Qed.

Lemma findIndex_split l1 x l2 :
  tid x ∉ ids l1 → findIndex (tid x) (l1 ++ x :: l2) = Some (length l1).
Proof.
  intros Hnot. unfold findIndex.
  assert (list_find (λ t, tid t = tid x) (l1 ++ x :: l2) = Some (length l1, x)) as ->; [|done].
  apply list_find_Some. split_and!.
  - by rewrite list_lookup_middle.
  - done.
  - intros j y Hj Hlt Hy. apply Hnot. unfold ids.
    rewrite lookup_app_l in Hj by done.
    apply list_elem_of_fmap. exists y. split; [done|]. by eapply list_elem_of_lookup_2.
Qed.

(** The two ways a ticket is merged: appended when its id is new, and
    otherwise written over the first entry with its id, which goes to the
    front when the ticket is unread. *)
Lemma mergeTicket_new l t : tid t ∉ ids l → mergeTicket l t = l ++ [t].
Proof. intros H%findIndex_None. unfold mergeTicket. by rewrite H. Qed.

Lemma mergeTicket_found l1 x l2 t :
  tid x = tid t → tid t ∉ ids l1 →
  mergeTicket (l1 ++ x :: l2) t =
    if bool_decide (0 < unreadMessages t) then t :: l1 ++ l2 else l1 ++ t :: l2.
Proof.
  intros Hx Hnot. unfold mergeTicket.
  rewrite <- Hx in Hnot |- * at 1. rewrite findIndex_split by done.
  rewrite insert_at_split.
  rewrite list_lookup_middle by done.
  case_bool_decide; [|done].
  f_equal. by rewrite delete_middle.
Qed.

Lemma mergeTicket_cases l t :
  ((tid t ∉ ids l) ∧ mergeTicket l t = l ++ [t]) ∨
  (∃ l1 x l2, l = l1 ++ x :: l2 ∧ tid x = tid t ∧ (tid t ∉ ids l1) ∧
     mergeTicket l t =
       if bool_decide (0 < unreadMessages t) then t :: l1 ++ l2 else l1 ++ t :: l2).
Proof.
  destruct (findIndex (tid t) l) as [i|] eqn:E.
  - right. apply findIndex_Some_split in E as (l1 & x & l2 & -> & _ & Hx & Hnot).
    exists l1, x, l2. split_and!; try done. by apply mergeTicket_found.
  - left. apply findIndex_None in E. split; [done|]. by apply mergeTicket_new.
Qed.

Lemma ids_app l1 l2 : ids (l1 ++ l2) = ids l1 ++ ids l2.
Proof. apply fmap_app. Qed.

(** Merging neither loses an id nor invents one. *)
Lemma elem_of_ids_mergeTicket l t k :
  k ∈ ids (mergeTicket l t) ↔ k ∈ ids l ∨ k = tid t.
Proof.
  destruct (mergeTicket_cases l t) as [[_ ->]|(l1 & x & l2 & -> & Hx & _ & ->)].
  - rewrite ids_app. set_solver.
  - case_bool_decide; rewrite ?ids_app; simpl; rewrite ?ids_app; simpl; rewrite ?Hx; set_solver.
Qed.

Lemma elem_of_ids_merge batch : ∀ l k,
  k ∈ ids (foldl mergeTicket l batch) ↔ k ∈ ids l ∨ k ∈ ids batch.
Proof.
  induction batch as [|t batch IH]; intros l k; simpl.
  - set_solver.
  - rewrite IH, elem_of_ids_mergeTicket. set_solver.
Qed.

Lemma mergeTicket_NoDup l t : NoDup (ids l) → NoDup (ids (mergeTicket l t)).
Proof.
  intros Hnd.
  destruct (mergeTicket_cases l t) as [[Hnew ->]|(l1 & x & l2 & -> & Hx & _ & ->)].
  - rewrite ids_app. apply NoDup_app. split_and!; [done| |apply NoDup_singleton].
    intros k Hk. simpl. set_solver.
  - rewrite ids_app in Hnd. simpl in Hnd. rewrite Hx in Hnd.
    case_bool_decide.
    + simpl. rewrite ids_app.
      by rewrite Permutation_middle.
    + by rewrite ids_app.
Qed.

Lemma reducer_NoDup s a : NoDup (ids s) → NoDup (ids (reducer s a)).
Proof.
  destruct a as [batch| |ty]; simpl; [|intros _; apply NoDup_nil_2|done].
  revert s. induction batch as [|t batch IH]; intros s Hs; simpl; [done|].
  by apply IH, mergeTicket_NoDup.
Qed.

(** *** Which of two ids comes first *)

Lemma firstOf_app_l a b L1 L2 r :
  firstOf a b L1 = Some r → firstOf a b (L1 ++ L2) = Some r.
Proof.
  unfold firstOf. rewrite filter_app.
  destruct (filter _ L1); [done|]. done.
Qed.

Lemma firstOf_skip a b z L :
  z ≠ a → z ≠ b → firstOf a b (z :: L) = firstOf a b L.
Proof.
  intros Ha Hb. unfold firstOf. rewrite filter_cons_False; [done|]. naive_solver.
Qed.

Lemma firstOf_skip_middle a b z L1 L2 :
  z ≠ a → z ≠ b → firstOf a b (L1 ++ z :: L2) = firstOf a b (L1 ++ L2).
Proof.
  intros Ha Hb. unfold firstOf. rewrite !filter_app.
  rewrite filter_cons_False; [done|]. naive_solver.
Qed.

Lemma firstOf_here a b L : firstOf a b (a :: L) = Some a.
Proof. unfold firstOf. rewrite filter_cons_True; [done|]. by left. Qed.

(** The id that comes first stays first when a ticket is merged, unless
    the ticket carries the other id and is unread. *)
Lemma firstOf_mergeTicket a b l v :
  firstOf a b (ids l) = Some a →
  (tid v = b → a = b ∨ unreadMessages v ≤ 0) →
  firstOf a b (ids (mergeTicket l v)) = Some a.
Proof.
  intros Hfirst Hb.
  destruct (mergeTicket_cases l v) as [[_ ->]|(l1 & x & l2 & -> & Hx & _ & ->)].
  - rewrite ids_app. by apply firstOf_app_l.
  - rewrite ids_app in Hfirst. simpl in Hfirst. rewrite Hx in Hfirst.
    case_bool_decide as Hunread.
    + simpl. rewrite ids_app.
      destruct (decide (tid v = a)) as [->|Hna]; [apply firstOf_here|].
      destruct (decide (tid v = b)) as [Hvb|Hnb].
      * destruct (Hb Hvb) as [->|?]; [congruence|lia].
      * rewrite firstOf_skip by done.
        by rewrite firstOf_skip_middle in Hfirst.
    + rewrite ids_app. done.
Qed.

Lemma firstOf_merge a b batch : ∀ l,
  firstOf a b (ids l) = Some a →
  (∀ v, v ∈ batch → tid v = b → a = b ∨ unreadMessages v ≤ 0) →
  firstOf a b (ids (foldl mergeTicket l batch)) = Some a.
Proof.
  induction batch as [|v batch IH]; intros l Hfirst Hb; simpl; [done|].
  apply IH.
  - apply firstOf_mergeTicket; [done|]. apply Hb. by left.
  - intros w Hw. apply Hb. by right.
Qed.

Lemma findIndex_cons_eq x l : findIndex (tid x) (x :: l) = Some 0%nat.
Proof. unfold findIndex. simpl. by rewrite decide_True. Qed.

Lemma findIndex_cons_ne k x l :
  tid x ≠ k → findIndex k (x :: l) = S <$> findIndex k l.
Proof.
  intros Hne. unfold findIndex. simpl. rewrite decide_False by done.
  by destruct (list_find _ l) as [[??]|].
Qed.

(** Being first among the two ids, read as positions. *)
Lemma firstOf_findIndex a b l :
  firstOf a b (ids l) = Some a →
  ∃ i, findIndex a l = Some i ∧ ∀ j, findIndex b l = Some j → (i ≤ j)%nat.
Proof.
  induction l as [|x l IH]; [done|]. simpl. intros Hfirst.
  destruct (decide (tid x = a)) as [<-|Hna].
  { exists 0%nat. split; [apply findIndex_cons_eq|]. intros; lia. }
  destruct (decide (tid x = b)) as [Hb|Hnb].
  { unfold firstOf in Hfirst. rewrite filter_cons_True in Hfirst by (by right).
    simpl in Hfirst. congruence. }
  rewrite firstOf_skip in Hfirst by done.
  destruct (IH Hfirst) as (i & Hi & Hle).
  exists (S i). rewrite !findIndex_cons_ne by done. rewrite Hi. split; [done|].
  intros j Hj. destruct (findIndex b l) as [j'|]; [|done].
  simpl in Hj. injection Hj as <-. specialize (Hle j' eq_refl). lia.
Qed.

(** *** Uniqueness of ids *)

(** C2. Starting from a list whose ids are pairwise distinct, any sequence
    of dispatched actions ([LOAD_TICKETS] batches, [RESET], or an action
    the reducer ignores) leaves a list whose ids are pairwise distinct. *)
Theorem ids_stay_unique s (actions : list Action) :
  NoDup (ids s) → NoDup (ids (dispatchAll s actions)).
Proof.
  revert s. induction actions as [|a actions IH]; intros s Hs; simpl; [done|].
  by apply IH, reducer_NoDup.
Qed.

Lemma ids_stay_unique_witness :
  NoDup (ids (dispatchAll [sampleTicket 1 0; sampleTicket 2 0]
                [LOAD_TICKETS [sampleTicket 2 3; sampleTicket 5 0; sampleTicket 5 1];
                 RESET;
                 LOAD_TICKETS [sampleTicket 7 0; sampleTicket 7 2]])).
Proof.
  apply ids_stay_unique.
  apply (bool_decide_unpack _). vm_compute. reflexivity.
Defined.

(** *** Unread tickets and their position *)

(** C3, as the claim states it, fails: an unread ticket whose id is new to
    the list is appended at the end, behind an entry that a later, read
    ticket of the batch writes over.  Here the list holds ticket 2, the
    batch is the unread ticket 1 followed by the read ticket 2, and
    ticket 1 ends at index 1, ticket 2 at index 0. *)
Lemma unread_new_ticket_goes_last :
  0 < unreadMessages (sampleTicket 1 5) ∧
  unreadMessages (sampleTicket 2 0) = 0 ∧
  findIndex 1 (reducer [sampleTicket 2 9]
                 (LOAD_TICKETS [sampleTicket 1 5; sampleTicket 2 0])) = Some 1%nat ∧
  findIndex 2 (reducer [sampleTicket 2 9]
                 (LOAD_TICKETS [sampleTicket 1 5; sampleTicket 2 0])) = Some 0%nat.
Proof. vm_compute. split_and!; reflexivity. Qed.

(** The order also turns when the id of the later ticket comes twice after
    [t], first unread and then read: the unread copy goes to the front,
    ahead of [t], and the read copy is written over it there. *)
Example unread_overtaken_by_repeated_id :
  findIndex 1 (reducer [sampleTicket 1 0; sampleTicket 2 0]
                 (LOAD_TICKETS [sampleTicket 1 5; sampleTicket 2 4; sampleTicket 2 0]))
    = Some 1%nat ∧
  findIndex 2 (reducer [sampleTicket 1 0; sampleTicket 2 0]
                 (LOAD_TICKETS [sampleTicket 1 5; sampleTicket 2 4; sampleTicket 2 0]))
    = Some 0%nat.
Proof. split; reflexivity. Qed.

(** An id of the list comes before an id the list does not have, and is
    level with itself. *)
Lemma firstOf_absent a b L : a ∈ L → b = a ∨ b ∉ L → firstOf a b L = Some a.
Proof.
  induction L as [|z L IH]; [by intros ?%not_elem_of_nil|].
  intros Ha Hb.
  destruct (decide (z = a)) as [->|Hza]; [apply firstOf_here|].
  assert (z ≠ b) as Hzb.
  { destruct Hb as [->|[? _]%not_elem_of_cons]; congruence. }
  rewrite firstOf_skip by done. apply IH.
  - apply elem_of_cons in Ha as [?|?]; [congruence|done].
  - destruct Hb as [?|[_ ?]%not_elem_of_cons]; [by left|by right].
Qed.

(** The id that comes first stays first over a batch in which every unread
    ticket with the other id is new to the list when it is merged. *)
Lemma firstOf_merge_where a b post : ∀ l,
  firstOf a b (ids l) = Some a →
  (∀ q1 v q2, post = q1 ++ v :: q2 → tid v = b → 0 < unreadMessages v →
              a = b ∨ tid v ∉ ids (foldl mergeTicket l q1)) →
  firstOf a b (ids (foldl mergeTicket l post)) = Some a.
Proof.
  induction post as [|v post IH]; intros l Hfirst Hpost; simpl; [done|].
  apply IH.
  - destruct (decide (tid v = b ∧ 0 < unreadMessages v)) as [[Hvb Hunread]|Hno].
    + destruct (Hpost [] v post eq_refl Hvb Hunread) as [Hab|Hnew].
      * apply firstOf_mergeTicket; [done|]. by left.
      * simpl in Hnew. rewrite mergeTicket_new by done.
        rewrite ids_app. by apply firstOf_app_l.
    + apply firstOf_mergeTicket; [done|]. intros Hvb. right.
      destruct (decide (0 < unreadMessages v)); [|lia]. by destruct Hno.
  - intros q1 w q2 -> Hwb Hunread.
    apply (Hpost (v :: q1) w q2 eq_refl Hwb Hunread).
Qed.

(** C3, amended.  Let [t] be a ticket of a batch and [u] a ticket merged
    after it, such that every unread ticket with the id of [u] that is
    merged after [t] is new to the list when it is merged (in a batch that
    repeats no id this only asks that [u], if unread, is new).  If [t] is
    unread and its id is already in the list when [t] is merged (it is in
    the starting list or earlier in the batch), or if the id of [u] is not
    yet in the list when [t] is merged, then after the merge the entry with
    the id of [t] is at an index no greater than the entry with the id of
    [u].  A ticket whose id is new to the list when it is merged is
    appended at the end, whatever its unread count. *)
Theorem unread_first_known_or_new s pre t post :
  (tid t ∉ ids (s ++ pre) →
     reducer s (LOAD_TICKETS (pre ++ t :: post))
     = reducer (reducer s (LOAD_TICKETS pre) ++ [t]) (LOAD_TICKETS post))
  ∧ ∀ u,
      u ∈ post →
      (0 < unreadMessages t ∧ tid t ∈ ids (s ++ pre)) ∨ tid u ∉ ids (s ++ pre) →
      (∀ q1 v q2, post = q1 ++ v :: q2 → tid v = tid u → 0 < unreadMessages v →
                  tid v ∉ ids (s ++ pre ++ t :: q1)) →
      ∃ i j,
        findIndex (tid t) (reducer s (LOAD_TICKETS (pre ++ t :: post))) = Some i ∧
        findIndex (tid u) (reducer s (LOAD_TICKETS (pre ++ t :: post))) = Some j ∧
        (i ≤ j)%nat.
Proof.
  simpl. rewrite foldl_app. simpl.
  set (l := foldl mergeTicket s pre).
  assert (∀ k, k ∈ ids l ↔ k ∈ ids (s ++ pre)) as Hl.
  { intros k. unfold l. rewrite elem_of_ids_merge, ids_app, elem_of_app. done. }
  split.
  { intros Hnew. rewrite mergeTicket_new; [done|]. by rewrite Hl. }
  intros u Hu Hstart Hpost.
  assert (firstOf (tid t) (tid u) (ids (mergeTicket l t)) = Some (tid t)) as Hfirst.
  { destruct Hstart as [[Hunread Hknown]|Hunew].
    - destruct (mergeTicket_cases l t)
        as [[Hnew _]|(l1 & x & l2 & _ & _ & _ & ->)]; [by destruct Hnew; apply Hl|].
      rewrite bool_decide_eq_true_2 by done. apply firstOf_here.
    - apply firstOf_absent.
      + apply elem_of_ids_mergeTicket. by right.
      + destruct (decide (tid u = tid t)) as [?|Hne]; [by left|right].
        rewrite elem_of_ids_mergeTicket, Hl. tauto. }
  apply (firstOf_merge_where _ _ post) in Hfirst.
  2:{ intros q1 v q2 Hsplit Hvu Hunread. right.
      pose proof (Hpost q1 v q2 Hsplit Hvu Hunread) as Hnew.
      rewrite elem_of_ids_merge, elem_of_ids_mergeTicket, Hl.
      rewrite !ids_app, !elem_of_app in Hnew. simpl in Hnew.
      rewrite elem_of_cons in Hnew. rewrite ids_app, elem_of_app. tauto. }
  apply firstOf_findIndex in Hfirst as (i & Hi & Hle).
  destruct (findIndex (tid u) (foldl mergeTicket (mergeTicket l t) post)) as [j|] eqn:Hj.
  - exists i, j. split_and!; [done..|]. by apply Hle.
  - apply findIndex_None in Hj. exfalso. apply Hj.
    apply elem_of_ids_merge. right. unfold ids. apply list_elem_of_fmap. eauto.
Qed.

Lemma unread_first_known_or_new_witness :
  ∃ i j,
    findIndex 9 (reducer [sampleTicket 1 0; sampleTicket 2 0; sampleTicket 3 0]
                   (LOAD_TICKETS ([sampleTicket 4 0] ++ sampleTicket 9 6 ::
                                  [sampleTicket 8 0; sampleTicket 7 3]))) = Some i ∧
    findIndex 8 (reducer [sampleTicket 1 0; sampleTicket 2 0; sampleTicket 3 0]
                   (LOAD_TICKETS ([sampleTicket 4 0] ++ sampleTicket 9 6 ::
                                  [sampleTicket 8 0; sampleTicket 7 3]))) = Some j ∧
    (i ≤ j)%nat.
Proof.
  apply (proj2 (unread_first_known_or_new
                  [sampleTicket 1 0; sampleTicket 2 0; sampleTicket 3 0]
                  [sampleTicket 4 0] (sampleTicket 9 6)
                  [sampleTicket 8 0; sampleTicket 7 3]) (sampleTicket 8 0)).
  - apply (bool_decide_unpack _). vm_compute. reflexivity.
  - right. apply (bool_decide_unpack _). vm_compute. reflexivity.
  - intros q1 v q2 Hsplit Hid Hunread.
    destruct q1 as [|a [|b q1]]; simpl in Hsplit.
    + injection Hsplit as <- _. simpl in Hunread. lia.
    + injection Hsplit as _ <- _. simpl in Hid. lia.
    + injection Hsplit as _ _ Hrest. by destruct q1.
Defined.

(** *** Merging a ticket twice *)

Lemma moveToFront_split l1 x l2 :
  tid x ∉ ids l1 → moveToFront (tid x) (l1 ++ x :: l2) = x :: l1 ++ l2.
Proof.
  intros Hnot. unfold moveToFront.
  assert (list_find (λ t, tid t = tid x) (l1 ++ x :: l2) = Some (length l1, x)) as ->.
  { apply list_find_Some. split_and!.
    - by rewrite list_lookup_middle.
    - done.
    - intros j y Hj Hlt Hy. apply Hnot. unfold ids.
      rewrite lookup_app_l in Hj by done.
      apply list_elem_of_fmap. exists y. split; [done|].
      by eapply list_elem_of_lookup_2. }
  by rewrite delete_middle.
Qed.

Lemma moveToFront_head x l : moveToFront (tid x) (x :: l) = x :: l.
Proof. apply (moveToFront_split [] x l), not_elem_of_nil. Qed.

Lemma mergeTicket_head x l t :
  tid x = tid t → mergeTicket (x :: l) t = t :: l.
Proof.
  intros Hx. pose proof (mergeTicket_found [] x l t Hx (not_elem_of_nil _)) as H.
  simpl in H. rewrite H. by case_bool_decide.
Qed.

(** Merging [t] a second time changes nothing when [t] is not unread, and
    otherwise only takes the entry of [t] to the front. *)
Lemma mergeTicket_twice l t :
  mergeTicket (mergeTicket l t) t =
    if bool_decide (0 < unreadMessages t)
    then moveToFront (tid t) (mergeTicket l t)
    else mergeTicket l t.
Proof.
  destruct (mergeTicket_cases l t) as [[Hnew ->]|(l1 & x & l2 & -> & Hx & Hnot & ->)].
  - rewrite (mergeTicket_found l t [] t) by done.
    rewrite moveToFront_split by done.
    case_bool_decide; by rewrite ?app_nil_r.
  - case_bool_decide as Hunread.
    + by rewrite mergeTicket_head, moveToFront_head.
    + rewrite (mergeTicket_found l1 t l2 t) by done.
      by rewrite bool_decide_eq_false_2.
Qed.

Lemma moveToFront_Permutation k l : moveToFront k l ≡ₚ l.
Proof.
  unfold moveToFront.
  destruct (list_find _ l) as [[i x]|] eqn:E; [|done].
  apply list_find_Some in E as (Hl & _ & _).
  symmetry. by apply delete_Permutation.
Qed.

(** C9. Merging the batch [[t]] twice gives the list that merging it once
    gives, up to the position the unread count assigns to [t]: when [t] is
    not unread the two lists are equal, and when [t] is unread the second
    merge only takes the entry of [t] to the front, every other entry
    keeping its place in the order.  In both cases the two lists hold the
    same tickets. *)
Theorem merge_twice_is_merge_once s t :
  reducer (reducer s (LOAD_TICKETS [t])) (LOAD_TICKETS [t]) =
    (if bool_decide (0 < unreadMessages t)
     then moveToFront (tid t) (reducer s (LOAD_TICKETS [t]))
     else reducer s (LOAD_TICKETS [t]))
  ∧ reducer (reducer s (LOAD_TICKETS [t])) (LOAD_TICKETS [t])
      ≡ₚ reducer s (LOAD_TICKETS [t]).
Proof.
  simpl. rewrite mergeTicket_twice. split; [done|].
  case_bool_decide; [apply moveToFront_Permutation|done].
Qed.

(** The equation holds as written as soon as the id of [t] is already in
    the list: the first merge then puts an unread [t] at the front. *)
Lemma merge_twice_present s t :
  tid t ∈ ids s →
  reducer (reducer s (LOAD_TICKETS [t])) (LOAD_TICKETS [t]) =
    reducer s (LOAD_TICKETS [t]).
Proof.
  intros Hin. simpl. rewrite mergeTicket_twice.
  case_bool_decide as Hunread; [|done].
  destruct (mergeTicket_cases s t) as [[Hnew _]|(l1 & x & l2 & _ & _ & _ & ->)]; [done|].
  rewrite bool_decide_eq_true_2 by done.
  apply moveToFront_head.
Qed.

(** A new unread ticket is the one case where the two lists differ. *)
Example merge_twice_new_unread :
  reducer [sampleTicket 1 0] (LOAD_TICKETS [sampleTicket 3 5])
    = [sampleTicket 1 0; sampleTicket 3 5] ∧
  reducer (reducer [sampleTicket 1 0] (LOAD_TICKETS [sampleTicket 3 5]))
          (LOAD_TICKETS [sampleTicket 3 5])
    = [sampleTicket 3 5; sampleTicket 1 0].
Proof. split; reflexivity. Qed.

End ReducerFacts.

(** * Facts about the push channel *)

Section ChannelFacts.
Import Model TicketsList.

Lemma includes_elem_of l q : includes l q = true ↔ q ∈ l.
Proof.
  unfold includes. rewrite existsb_exists. split.
  - intros (x & Hin & Heq). apply Z.eqb_eq in Heq as ->. by apply list_elem_of_In.
  - intros Hin. exists q. split; [by apply list_elem_of_In|apply Z.eqb_refl].
Qed.

Lemma falsy_nonzero v : v ≠ Some 0 → falsy v = true ↔ v = None.
Proof.
  intros Hv. destruct v as [n|]; simpl; [|done].
  split; [|done]. intros ->%Z.eqb_eq. done.
Qed.

(** The predicate of the handler, for a ticket whose operator and queue,
    when present, are not the number 0 (database keys start at 1). *)
Lemma shouldUpdateTicket_spec env t :
  userId t ≠ Some 0 → queueId t ≠ Some 0 →
  shouldUpdateTicket env t = true ↔
    (userId t = None
     ∨ (∃ n, userId t = Some n ∧ user_id env = Some n)
     ∨ showAll env = true)
    ∧ (queueId t = None
       ∨ ∃ q, queueId t = Some q ∧ q ∈ selectedQueueIds env).
Proof.
  intros Hu Hq. unfold shouldUpdateTicket.
  rewrite andb_true_iff, !orb_true_iff, bool_decide_eq_true.
  rewrite !falsy_nonzero by done.
  assert (includesNullable (selectedQueueIds env) (queueId t) = true
          ↔ ∃ q, queueId t = Some q ∧ q ∈ selectedQueueIds env) as ->.
  { destruct (queueId t) as [q|]; simpl.
    - rewrite includes_elem_of. naive_solver.
    - naive_solver. }
  destruct (userId t) as [n|] eqn:En; naive_solver.
Qed.

(** C7. For a push event with action ["update"] carrying the ticket [t]
    (whose operator and queue, when present, are not 0), the handler
    dispatches the batch [[t]] exactly when ([t] has no operator, or its
    operator is the current user, or [showAll] is set) and ([t] has no
    queue, or its queue is among [selectedQueueIds]); the list after the
    event is then the merge of [[t]].  Otherwise it dispatches nothing and
    the list is unchanged. *)
Theorem update_event_membership env s t :
  userId t ≠ Some 0 → queueId t ≠ Some 0 →
  (shouldUpdateTicket env t = true ↔
     (userId t = None
      ∨ (∃ n, userId t = Some n ∧ user_id env = Some n)
      ∨ showAll env = true)
     ∧ (queueId t = None
        ∨ ∃ q, queueId t = Some q ∧ q ∈ selectedQueueIds env))
  ∧ onTicket env (mkSocketData "update" (Some t)) =
      Some (if shouldUpdateTicket env t then [LOAD_TICKETS [t]] else [])
  ∧ handleTicketEvent env s (mkSocketData "update" (Some t)) =
      Some (if shouldUpdateTicket env t then reducer s (LOAD_TICKETS [t]) else s).
Proof.
  intros Hu Hq. split; [by apply shouldUpdateTicket_spec|].
  unfold handleTicketEvent, onTicket. simpl.
  destruct (shouldUpdateTicket env t); split; reflexivity.
Qed.

Lemma update_event_membership_witness :
  (shouldUpdateTicket (mkEnv (Some 3) false [4; 5])
     (mkTicket 10 0 (Some 4) (Some 3) "open" 0 0 "") = true ↔
     (userId (mkTicket 10 0 (Some 4) (Some 3) "open" 0 0 "") = None
      ∨ (∃ n, userId (mkTicket 10 0 (Some 4) (Some 3) "open" 0 0 "") = Some n
              ∧ user_id (mkEnv (Some 3) false [4; 5]) = Some n)
      ∨ showAll (mkEnv (Some 3) false [4; 5]) = true)
     ∧ (queueId (mkTicket 10 0 (Some 4) (Some 3) "open" 0 0 "") = None
        ∨ ∃ q, queueId (mkTicket 10 0 (Some 4) (Some 3) "open" 0 0 "") = Some q
               ∧ q ∈ selectedQueueIds (mkEnv (Some 3) false [4; 5])))
  ∧ onTicket (mkEnv (Some 3) false [4; 5])
      (mkSocketData "update" (Some (mkTicket 10 0 (Some 4) (Some 3) "open" 0 0 ""))) =
      Some (if shouldUpdateTicket (mkEnv (Some 3) false [4; 5])
                 (mkTicket 10 0 (Some 4) (Some 3) "open" 0 0 "")
            then [LOAD_TICKETS [mkTicket 10 0 (Some 4) (Some 3) "open" 0 0 ""]] else [])
  ∧ handleTicketEvent (mkEnv (Some 3) false [4; 5]) [sampleTicket 1 0]
      (mkSocketData "update" (Some (mkTicket 10 0 (Some 4) (Some 3) "open" 0 0 ""))) =
      Some (if shouldUpdateTicket (mkEnv (Some 3) false [4; 5])
                 (mkTicket 10 0 (Some 4) (Some 3) "open" 0 0 "")
            then reducer [sampleTicket 1 0]
                   (LOAD_TICKETS [mkTicket 10 0 (Some 4) (Some 3) "open" 0 0 ""])
            else [sampleTicket 1 0]).
Proof.
  apply (update_event_membership (mkEnv (Some 3) false [4; 5]) [sampleTicket 1 0]
           (mkTicket 10 0 (Some 4) (Some 3) "open" 0 0 "")); simpl; congruence.
Defined.

(** A ticket of another operator is dropped, and so is one of a queue that
    is not selected. *)
Example update_event_dropped :
  handleTicketEvent (mkEnv (Some 3) false [4; 5]) [sampleTicket 1 0]
    (mkSocketData "update" (Some (mkTicket 10 0 (Some 4) (Some 8) "open" 0 0 "")))
    = Some [sampleTicket 1 0] ∧
  handleTicketEvent (mkEnv (Some 3) true [4; 5]) [sampleTicket 1 0]
    (mkSocketData "update" (Some (mkTicket 10 0 (Some 6) (Some 3) "open" 0 0 "")))
    = Some [sampleTicket 1 0].
Proof. split; reflexivity. Qed.

(** C8. A push event with action ["delete"] dispatches [RESET], with or
    without a ticket in it, and so does a filter change (which also goes
    back to page 1); after [RESET] the list is empty, whatever it held. *)
Theorem reset_clears_list env s (c : Component) (tk : option Ticket) :
  onTicket env (mkSocketData "delete" tk) = Some [RESET]
  ∧ handleTicketEvent env s (mkSocketData "delete" tk) = Some []
  ∧ onFilterChange c = mkComponent 1 (reducer (ticketsList c) RESET)
  ∧ ticketsList (onFilterChange c) = []
  ∧ reducer s RESET = [].
Proof. split_and!; reflexivity. Qed.

End ChannelFacts.

(** * Facts about the query service *)

Section QueryFacts.
Import Model ListTickets.

Implicit Types (c : Collaborators) (p : Request) (w : Where) (st : Store).

(** *** Pagination *)

(** C4. The page size is 40 and the offset is [40 * (n - 1)], where [n]
    is the number the page string denotes.  When the condition is built
    and the final query answers [count] and [rows], the service returns
    exactly these with [hasMore] set iff [count > offset + length rows].
    With [count = 85]: page 1 has [hasMore = true], and page 3 (offset 80)
    with 5 rows has [hasMore = false]. *)
Theorem pagination_arithmetic c p n w total rows signal :
  default false signal = false →
  toNumber c (default "1" (pageNumber p)) = Int n →
  buildWhere c p = inr w →
  Ticket_findAndCountAll c
    (mkQuery w (snd (composeFilters c p)) true 40 (Int (40 * (n - 1)))
             [("updatedAt", "DESC")] false) = inr (total, rows) →
  limit = 40
  ∧ offsetOf c p = Int (40 * (n - 1))
  ∧ ListTicketsServiceInternal c p signal =
      inr (mkResponse rows total
             (bool_decide (40 * (n - 1) + Z.of_nat (length rows) < total)))
  ∧ (total = 85 → n = 1 → (length rows ≤ 40)%nat →
       ∃ page, ListTicketsServiceInternal c p signal = inr page
               ∧ hasMore page = true)
  ∧ (total = 85 → n = 3 → length rows = 5%nat →
       ∃ page, ListTicketsServiceInternal c p signal = inr page
               ∧ hasMore page = false).
Proof.
  intros Hsig Hn Hw Hq.
  assert (offsetOf c p = Int (40 * (n - 1))) as Hoff.
  { unfold offsetOf. by rewrite Hn. }
  assert (ListTicketsServiceInternal c p signal =
            inr (mkResponse rows total
                   (bool_decide (40 * (n - 1) + Z.of_nat (length rows) < total)))) as Hres.
  { unfold ListTicketsServiceInternal. rewrite Hsig, Hw. simpl.
    rewrite Hoff. unfold limit. rewrite Hq. reflexivity. }
  split_and!; [done..| |].
  - intros -> -> Hlen. eexists. split; [exact Hres|]. simpl.
    apply bool_decide_eq_true_2. lia.
  - intros -> -> Hlen. eexists. split; [exact Hres|]. simpl.
    apply bool_decide_eq_false_2. lia.
Qed.

Lemma pagination_arithmetic_witness :
  ∃ rows,
    ListTicketsServiceInternal (memory (storeOf 85)) (pageRequest "3") (Some false) =
      inr (mkResponse rows 85
             (bool_decide (40 * (3 - 1) + Z.of_nat (length rows) < 85)))
    ∧ ids rows = [5; 4; 3; 2; 1].
Proof.
  eexists. split.
  - refine (proj1 (proj2 (proj2
      (pagination_arithmetic (memory (storeOf 85)) (pageRequest "3") 3
         _ 85 _ (Some false) eq_refl eq_refl eq_refl _)))).
    lazy. reflexivity.
  - lazy. reflexivity.
Defined.

(** The two pages of the example, run on a store of 85 tickets. *)
Example pages_of_85 :
  (∃ rows, ListTicketsServiceInternal (memory (storeOf 85)) (pageRequest "1") (Some false)
             = inr (mkResponse rows 85 true) ∧ length rows = 40%nat)
  ∧ (∃ rows, ListTicketsServiceInternal (memory (storeOf 85)) (pageRequest "3") (Some false)
             = inr (mkResponse rows 85 false) ∧ length rows = 5%nat).
Proof. split; eexists; (split; [vm_compute; reflexivity|reflexivity]). Qed.

(** *** The unread-only condition *)

Lemma isTrue_spec (s : option string) : isTrue s = true ↔ s = Some "true".
Proof.
  destruct s as [v|]; simpl; [|done].
  rewrite String.eqb_eq. naive_solver.
Qed.

(** What the condition object of the unread branch selects. *)
Lemma evalWhere_unread st operator ownQueues t :
  evalWhere st
    (mkWhere (Some (OwnerOrPending operator)) (Some ownQueues)
             None None None (Some 0) None) t
  = unreadOnly operator ownQueues t.
Proof.
  unfold evalWhere, unreadOnly, entry, evalOr, evalQueue. simpl.
  by rewrite !andb_true_r.
Qed.

(** C5. With [withUnreadMessages = "true"] (and the operator found), the
    unread branch assigns the condition with exactly three entries: owner
    or pending, queue among the operator's own queues or null, unread
    count above 0.  It does so whatever condition [w0] was composed before
    from status, search and dates.  A ticket satisfies it iff it belongs to
    the operator or is pending, its queue is one of the operator's own or
    null, and it has unread messages.  This is the condition the query
    gets when no tags are given; with tags, the tag branch adds its [id]
    entry to it and changes nothing else. *)
Theorem unread_condition_replaces_all c p operator w0 :
  withUnreadMessages p = Some "true" →
  ShowUserService c (userId p) = inr operator →
  applyUnread c p w0 =
    inr (mkWhere (Some (OwnerOrPending (userId p)))
                 (Some (map queue_id (queues operator)))
                 None None None (Some 0) None)
  ∧ (∀ st t,
       evalWhere st
         (mkWhere (Some (OwnerOrPending (userId p)))
                  (Some (map queue_id (queues operator)))
                  None None None (Some 0) None) t
       = unreadOnly (userId p) (map queue_id (queues operator)) t)
  ∧ (tags p = [] →
       buildWhere c p =
         inr (mkWhere (Some (OwnerOrPending (userId p)))
                      (Some (map queue_id (queues operator)))
                      None None None (Some 0) None))
  ∧ (tags p ≠ [] →
       buildWhere c p =
         Model.bind (resolveTags c (tags p)) (λ resolved,
           inr (mkWhere (Some (OwnerOrPending (userId p)))
                        (Some (map queue_id (queues operator)))
                        None None None (Some 0) (Some resolved)))).
Proof.
  intros Hflag Huser.
  assert (∀ w, applyUnread c p w =
            inr (mkWhere (Some (OwnerOrPending (userId p)))
                         (Some (map queue_id (queues operator)))
                         None None None (Some 0) None)) as Hbranch.
  { intros w. unfold applyUnread.
    rewrite (proj2 (isTrue_spec _) Hflag), Huser. reflexivity. }
  split_and!.
  - apply Hbranch.
  - intros st t. apply evalWhere_unread.
  - intros Htags. unfold buildWhere. rewrite Hbranch. simpl.
    unfold applyTags. by rewrite Htags.
  - intros Htags. unfold buildWhere. rewrite Hbranch. simpl.
    unfold applyTags. rewrite bool_decide_eq_true_2; [done|].
    destruct (tags p); [done|]. simpl. lia.
Qed.

Lemma unread_condition_replaces_all_witness :
  applyUnread (memory sampleStore) unreadRequest
    (fst (composeFilters (memory sampleStore) unreadRequest)) =
    inr (mkWhere (Some (OwnerOrPending 1)) (Some [4]) None None None (Some 0) None)
  ∧ buildWhere (memory sampleStore) unreadRequest =
      inr (mkWhere (Some (OwnerOrPending 1)) (Some [4]) None None None (Some 0) None).
Proof.
  pose proof (unread_condition_replaces_all (memory sampleStore) unreadRequest
                (mkUser 1 [mkQueue 4] 0)
                (fst (composeFilters (memory sampleStore) unreadRequest))
                eq_refl eq_refl) as (Hbranch & _ & Hbuilt & _).
  split; [exact Hbranch|exact (Hbuilt eq_refl)].
Defined.

(** The status and search entries composed for [unreadRequest] are gone
    from the condition the query gets. *)
Example unread_drops_status_and_search :
  fst (composeFilters (memory sampleStore) unreadRequest) =
    mkWhere (Some (SearchAny "ana")) (Some [9]) (Some "open") None None None None
  ∧ buildWhere (memory sampleStore) unreadRequest =
      inr (mkWhere (Some (OwnerOrPending 1)) (Some [4]) None None None (Some 0) None).
Proof. split; reflexivity. Qed.

(** *** Tags *)

Lemma elem_of_uniqFrom l : ∀ seen k,
  k ∈ uniqFrom seen l ↔ k ∈ l ∧ k ∉ seen.
Proof.
  induction l as [|x l IH]; intros seen k; simpl.
  - rewrite elem_of_nil. naive_solver.
  - case_bool_decide as Hseen.
    + rewrite IH, elem_of_cons. naive_solver.
    + rewrite !elem_of_cons, IH, not_elem_of_cons.
      destruct (decide (k = x)); naive_solver.
Qed.

Lemma uniqFrom_NoDup l : ∀ seen, NoDup (uniqFrom seen l).
Proof.
  induction l as [|x l IH]; intros seen; simpl; [apply NoDup_nil_2|].
  case_bool_decide; [apply IH|].
  apply NoDup_cons. split; [|apply IH].
  rewrite elem_of_uniqFrom, not_elem_of_cons. naive_solver.
Qed.

Lemma filter_all {A} (P : A → Prop) `{∀ x, Decision (P x)} (l : list A) :
  (∀ x, P x) → filter P l = l.
Proof.
  intros HP. induction l as [|x l IH]; [done|].
  rewrite filter_cons_True by done. by rewrite IH.
Qed.

Lemma filter_none {A} (P : A → Prop) `{∀ x, Decision (P x)} (l : list A) :
  (∀ x, ¬ P x) → filter P l = [].
Proof.
  intros HP. induction l as [|x l IH]; [done|].
  rewrite filter_cons_False by done. by rewrite IH.
Qed.

(** [intersection] of a single array is that array without repetitions. *)
Lemma elem_of_intersection_single l k : k ∈ intersection [l] ↔ k ∈ l.
Proof.
  unfold intersection. rewrite filter_all by done.
  rewrite elem_of_uniqFrom. split; [naive_solver|].
  intros Hk. split; [done|apply not_elem_of_nil].
Qed.

Lemma intersection_single_NoDup l : NoDup (intersection [l]).
Proof. unfold intersection. apply uniqFrom_NoDup. Qed.

(** No branch before the tag branch writes the [id] entry. *)
Lemma composeFilters_no_id c p : w_id (fst (composeFilters c p)) = None.
Proof.
  unfold composeFilters.
  repeat match goal with |- context [if ?b then _ else _] => destruct b end;
    reflexivity.
Qed.

Lemma applyUnread_no_id c p w0 w :
  w_id w0 = None → applyUnread c p w0 = inr w → w_id w = None.
Proof.
  intros H0. unfold applyUnread.
  destruct (isTrue _); [|by intros [= <-]].
  destruct (ShowUserService _ _); simpl; [done|]. by intros [= <-].
Qed.

(** Adding the [id] entry to a condition without one intersects what it
    selects with the listed ids. *)
Lemma evalWhere_set_id st w resolved t :
  w_id w = None →
  evalWhere st (set_id resolved w) t =
    evalWhere st w t && bool_decide (tid t ∈ resolved).
Proof.
  intros Hid. unfold evalWhere. simpl. rewrite Hid. simpl.
  by rewrite andb_true_r.
Qed.

Lemma elem_of_insertDesc x t l : x ∈ insertDesc t l ↔ x = t ∨ x ∈ l.
Proof.
  induction l as [|y l IH]; simpl.
  - rewrite list_elem_of_singleton, elem_of_nil. naive_solver.
  - destruct (_ <? _); rewrite !elem_of_cons; [done|]. rewrite IH. naive_solver.
Qed.

Lemma elem_of_sortDesc x l : x ∈ sortDesc l ↔ x ∈ l.
Proof.
  induction l as [|y l IH]; simpl; [done|].
  rewrite elem_of_insertDesc, IH, elem_of_cons. done.
Qed.

Lemma elem_of_take_drop {A} (x : A) n m l : x ∈ take n (drop m l) → x ∈ l.
Proof.
  intros Hin. rewrite <- (take_drop m l). apply elem_of_app. right.
  rewrite <- (take_drop n (drop m l)). apply elem_of_app. by left.
Qed.

(** The rows the store returns satisfy the condition of the query. *)
Lemma memFindAndCountAll_rows st q total rows t :
  memFindAndCountAll st q = inr (total, rows) →
  t ∈ rows → evalWhere st (q_where q) t = true.
Proof.
  unfold memFindAndCountAll.
  destruct (q_offset q) as [|o]; [done|].
  destruct (o <? 0); [done|]. intros [= _ <-] Hin.
  apply elem_of_take_drop in Hin. rewrite elem_of_sortDesc in Hin.
  by apply list_elem_of_filter in Hin as [? _].
Qed.

(** A condition whose [id] entry lists no id selects nothing. *)
Lemma memFindAndCountAll_no_id st q total rows :
  w_id (q_where q) = Some [] →
  memFindAndCountAll st q = inr (total, rows) → total = 0 ∧ rows = [].
Proof.
  intros Hid. unfold memFindAndCountAll.
  destruct (q_offset q) as [|o]; [done|].
  destruct (o <? 0); [done|].
  rewrite filter_none.
  - simpl. rewrite drop_nil, take_nil. by intros [= <- <-].
  - intros t. unfold evalWhere. rewrite Hid. unfold entry at 7.
    rewrite (bool_decide_eq_false_2 (tid t ∈ [])) by apply not_elem_of_nil.
    rewrite andb_false_r. done.
Qed.

(** What a returned page says about the run of the internal function. *)
Lemma ListTicketsServiceInternal_inr c p signal page :
  ListTicketsServiceInternal c p signal = inr page →
  ∃ w total rows,
    buildWhere c p = inr w
    ∧ Ticket_findAndCountAll c
        (mkQuery w (snd (composeFilters c p)) true limit (offsetOf c p)
                 [("updatedAt", "DESC")] false) = inr (total, rows)
    ∧ page = mkResponse rows total
               (num_gt (Int total)
                  (num_add (offsetOf c p) (Int (Z.of_nat (length rows))))).
Proof.
  unfold ListTicketsServiceInternal.
  destruct (default false signal); [done|].
  destruct (buildWhere c p) as [e|w]; [done|]. simpl.
  destruct (Ticket_findAndCountAll c _) as [e|[total rows]] eqn:Hq; [done|].
  simpl. intros [= <-]. by exists w, total, rows.
Qed.

Lemma ListTicketsServiceInternal_run c p w total rows :
  buildWhere c p = inr w →
  Ticket_findAndCountAll c
    (mkQuery w (snd (composeFilters c p)) true limit (offsetOf c p)
             [("updatedAt", "DESC")] false) = inr (total, rows) →
  ListTicketsServiceInternal c p (Some false) =
    inr (mkResponse rows total
           (num_gt (Int total)
              (num_add (offsetOf c p) (Int (Z.of_nat (length rows)))))).
Proof.
  intros Hw Hq. unfold ListTicketsServiceInternal. simpl default. cbv iota.
  rewrite Hw. simpl. by rewrite Hq.
Qed.

Lemma memFindAndCountAll_empty st q o :
  q_offset q = Int o → 0 ≤ o → w_id (q_where q) = Some [] →
  memFindAndCountAll st q = inr (0, []).
Proof.
  intros Hoff Ho Hid. unfold memFindAndCountAll. rewrite Hoff.
  rewrite (proj2 (Z.ltb_ge _ _)) by done.
  rewrite filter_none.
  - simpl. by rewrite drop_nil, take_nil.
  - intros t. unfold evalWhere. rewrite Hid. unfold entry at 7.
    rewrite (bool_decide_eq_false_2 (tid t ∈ [])) by apply not_elem_of_nil.
    by rewrite andb_false_r.
Qed.

Lemma buildWhere_tags c p w resolved :
  tags p ≠ [] →
  applyUnread c p (fst (composeFilters c p)) = inr w →
  resolveTags c (tags p) = inr resolved →
  buildWhere c p = inr (set_id resolved w).
Proof.
  intros Htags Hw Hres. unfold buildWhere. rewrite Hw. simpl.
  unfold applyTags. rewrite bool_decide_eq_true_2.
  - by rewrite Hres.
  - destruct (tags p); [done|]. simpl. lia.
Qed.

(** Whatever the data layer, the resolved ids are the ticket ids of the
    rows the tag lookup returns, each once: a ticket with any one of the
    tags is in. *)
Lemma resolveTags_any c tagIds rows :
  TicketTag_findAll c tagIds = inr rows →
  ∃ resolved,
    resolveTags c tagIds = inr resolved
    ∧ NoDup resolved
    ∧ ∀ k, k ∈ resolved ↔ ∃ r, r ∈ rows ∧ ticketId r = k.
Proof.
  intros Hrows. exists (intersection [map ticketId rows]). split_and!.
  - unfold resolveTags. by rewrite Hrows.
  - apply intersection_single_NoDup.
  - intros k. rewrite elem_of_intersection_single.
    change (map ticketId rows) with (ticketId <$> rows).
    rewrite list_elem_of_fmap. naive_solver.
Qed.

(** C6. With a non-empty tag list, run on the store in memory: the
    resolved ids are exactly the ticket ids that some association row links
    to one of the given tags (any tag, not all); the condition of the query
    is the condition built so far with the [id] entry added, so that it
    selects the tickets the former selects whose id is resolved; every
    ticket of a returned page has a resolved id; and when no id is
    resolved, a returned page is the empty page, and it is returned for any
    page number from 1 on. *)
Theorem tags_select_any_and_intersect st p :
  tags p ≠ [] →
  ∃ resolved,
    resolveTags (memory st) (tags p) = inr resolved
    ∧ (∀ k, k ∈ resolved ↔
            ∃ r, r ∈ st_ticketTags st ∧ ticketId r = k ∧ tagId r ∈ tags p)
    ∧ (∀ w, applyUnread (memory st) p (fst (composeFilters (memory st) p)) = inr w →
         buildWhere (memory st) p = inr (set_id resolved w)
         ∧ ∀ t, evalWhere st (set_id resolved w) t =
                  evalWhere st w t && bool_decide (tid t ∈ resolved))
    ∧ (∀ signal page,
         ListTicketsServiceInternal (memory st) p signal = inr page →
         (∀ t, t ∈ tickets page → tid t ∈ resolved)
         ∧ (resolved = [] → page = emptyPage))
    ∧ (resolved = [] → ∀ w n,
         applyUnread (memory st) p (fst (composeFilters (memory st) p)) = inr w →
         decimalToNumber (default "1" (pageNumber p)) = Int n → 1 ≤ n →
         ListTicketsServiceInternal (memory st) p (Some false) = inr emptyPage).
Proof.
  intros Htags.
  set (found := filter (λ r, tagId r ∈ tags p) (st_ticketTags st)).
  exists (intersection [map ticketId found]).
  assert (resolveTags (memory st) (tags p) = inr (intersection [map ticketId found]))
    as Hres by reflexivity.
  assert (∀ w, applyUnread (memory st) p (fst (composeFilters (memory st) p)) = inr w →
            w_id w = None) as Hnoid.
  { intros w. apply applyUnread_no_id, composeFilters_no_id. }
  split_and!.
  - done.
  - intros k. rewrite elem_of_intersection_single.
    change (map ticketId found) with (ticketId <$> found).
    rewrite list_elem_of_fmap. unfold found. split.
    + intros (r & -> & [Htag Hin]%list_elem_of_filter). by exists r.
    + intros (r & Hin & <- & Htag). exists r. split; [done|].
      by apply list_elem_of_filter.
  - intros w Hw. split; [by apply buildWhere_tags|].
    intros t. apply evalWhere_set_id. by apply Hnoid.
  - intros signal page Hpage.
    apply ListTicketsServiceInternal_inr in Hpage as (w' & total & rows & Hw' & Hq & ->).
    destruct (applyUnread (memory st) p (fst (composeFilters (memory st) p)))
      as [e|w] eqn:Hw.
    { unfold buildWhere in Hw'. by rewrite Hw in Hw'. }
    rewrite (buildWhere_tags _ _ _ _ Htags Hw Hres) in Hw'. injection Hw' as <-.
    change (Ticket_findAndCountAll (memory st)) with (memFindAndCountAll st) in Hq.
    split.
    + intros t Hin. simpl in Hin.
      pose proof (memFindAndCountAll_rows _ _ _ _ _ Hq Hin) as Hsel.
      simpl q_where in Hsel. rewrite evalWhere_set_id in Hsel by by apply Hnoid.
      apply andb_true_iff in Hsel as [_ Hsel]. by apply bool_decide_eq_true in Hsel.
    + intros Hnone.
      assert (total = 0 ∧ rows = []) as [-> ->].
      { eapply memFindAndCountAll_no_id; [|exact Hq].
        change (Some (intersection [map ticketId found]) = Some []).
        by rewrite Hnone. }
      unfold memFindAndCountAll in Hq. simpl q_offset in Hq.
      destruct (offsetOf (memory st) p) as [|o]; [done|].
      destruct (o <? 0) eqn:Ho; [done|]. apply Z.ltb_ge in Ho.
      unfold emptyPage. f_equal. simpl. apply bool_decide_eq_false_2. lia.
  - intros Hnone w n Hw Hn Hge.
    assert (offsetOf (memory st) p = Int (40 * (n - 1))) as Hoff.
    { unfold offsetOf. change (toNumber (memory st)) with decimalToNumber.
      by rewrite Hn. }
    erewrite ListTicketsServiceInternal_run.
    2:{ by apply buildWhere_tags. }
    2:{ apply (memFindAndCountAll_empty st _ (40 * (n - 1))); [done|lia|].
        change (Some (intersection [map ticketId found]) = Some []).
        by rewrite Hnone. }
    rewrite Hoff. unfold emptyPage. simpl.
    rewrite bool_decide_eq_false_2 by lia. done.
Qed.

Lemma tags_select_any_and_intersect_witness :
  ∃ resolved,
    resolveTags (memory sampleStore) (tags (taggedRequest [7; 8])) = inr resolved
    ∧ (∀ k, k ∈ resolved ↔
            ∃ r, r ∈ st_ticketTags sampleStore ∧ ticketId r = k
                 ∧ tagId r ∈ tags (taggedRequest [7; 8])).
Proof.
  destruct (tags_select_any_and_intersect sampleStore (taggedRequest [7; 8]))
    as (resolved & Hres & Hany & _).
  - simpl. congruence.
  - exists resolved. split; [exact Hres|exact Hany].
Defined.

(** Tags 1 and 2 lead to tickets 5 and 7, tag 3 to tickets 7 and 9: asked
    together they resolve to 5, 7 and 9.  A tag nothing carries resolves
    to no ticket and gives the empty page. *)
Example tags_resolve_to_union :
  resolveTags
    (memory (mkStore [] [mkTicketTag 5 1; mkTicketTag 7 2; mkTicketTag 7 3; mkTicketTag 9 3]
                     [] (λ _ _, true) (λ _, Int 0) (λ _, Int 10)))
    [1; 2; 3] = inr [5; 7; 9]
  ∧ ListTicketsServiceInternal (memory sampleStore) (taggedRequest [9]) (Some false)
    = inr emptyPage
  ∧ ids <$> (match ListTicketsServiceInternal (memory sampleStore) (taggedRequest [8])
                     (Some false) with
             | inr page => Some (tickets page)
             | inl _ => None
             end) = Some [1].
Proof. split_and!; reflexivity. Qed.

(** *** Superseded calls *)

(** A call starts with a fresh controller: the entry check of the internal
    function never fires through [ListTicketsService]. *)
Lemma start_entry_not_aborted rt p :
  entryAborted (snd (ListTicketsService_start rt p)) = false.
Proof.
  unfold ListTicketsService_start. simpl.
  by rewrite list_lookup_middle.
Qed.

(** Starting a call aborts the controller of the call before it. *)
Lemma start_aborts_current rt p i :
  currentAbortController rt = Some i → (i < length (heap rt))%nat →
  heap (fst (ListTicketsService_start rt p)) !! i = Some true.
Proof.
  intros Hcur Hlt. unfold ListTicketsService_start. rewrite Hcur. simpl.
  rewrite lookup_app_l by by rewrite length_insert.
  by apply list_lookup_insert_eq.
Qed.

(** What a call settles with does not depend on the controllers: a call
    aborted while it waits settles as if it had not been. *)
Lemma finish_ignores_abort c rt rt' f :
  snd (ListTicketsService_finish c rt f) = snd (ListTicketsService_finish c rt' f).
Proof. reflexivity. Qed.

(** The error of the entry check is an [Error] named ["Error"]: the
    [catch] block rethrows it. *)
Lemma entry_abort_is_rethrown c rt p i :
  snd (ListTicketsService_finish c rt (mkPending p i true)) =
    inl (JsError "Error" "Requisição cancelada").
Proof. reflexivity. Qed.

(** The empty page only answers an error named ["AbortError"], which only
    a collaborator can throw. *)
Lemma empty_page_only_on_AbortError c rt p :
  snd (ListTicketsService c rt p) =
    match ListTicketsServiceInternal c p (Some false) with
    | inr page => inr page
    | inl e => if bool_decide (exn_name e = Some "AbortError")
               then inr emptyPage else inl e
    end.
Proof.
  unfold ListTicketsService.
  pose proof (start_entry_not_aborted rt p) as Hentry.
  destruct (ListTicketsService_start rt p) as [rt' f] eqn:Hstart.
  unfold ListTicketsService_finish. simpl in *. rewrite Hentry.
  unfold ListTicketsService_start in Hstart. injection Hstart as _ <-. done.
Qed.

(** C1 fails on the code.  Two calls overlap on the sample store: the
    second aborts the controller of the first, and the first still settles
    with the full page of the query (tickets 2 and 1, count 2), not with
    the empty page. *)
Theorem superseded_call_returns_full_page :
  superseded (run (memory sampleStore) overlappingCalls) 0 = true
  ∧ ∃ page,
      resultOf (run (memory sampleStore) overlappingCalls) 0 = Some (inr page)
      ∧ ids (tickets page) = [2; 1]
      ∧ count page = 2
      ∧ page ≠ emptyPage.
Proof.
  split; [reflexivity|].
  eexists. split_and!; [reflexivity..|]. discriminate.
Qed.

(** The same for any parameters and any collaborators: a superseded first
    call settles with whatever the internal function gives. *)
Lemma superseded_call_result c p p' :
  superseded (run c [Start p; Start p'; Finish 0%nat]) 0 = true
  ∧ resultOf (run c [Start p; Start p'; Finish 0%nat]) 0 =
      Some (match ListTicketsServiceInternal c p (Some false) with
            | inr page => inr page
            | inl e => if bool_decide (exn_name e = Some "AbortError")
                       then inr emptyPage else inl e
            end).
Proof. split; reflexivity. Qed.

End QueryFacts.

(** * Facts about the token refresh *)

Section RefreshFacts.
Import Model RefreshToken.

Implicit Types (c : Collaborators) (res : Res) (token : option string).

Lemma missing_spec token : missing token = false ↔ ∃ tk, token = Some tk ∧ tk ≠ "".
Proof.
  destruct token as [tk|]; simpl.
  - rewrite String.eqb_neq. naive_solver.
  - naive_solver.
Qed.

Lemma elem_of_snoc {A} (l : list A) (x : A) : x ∈ l ++ [x].
Proof. apply elem_of_app. right. by apply list_elem_of_singleton. Qed.

(** C10. The service returns tokens only when the token is present,
    [verify] accepts it under the configured refresh secret, the user of
    the decoded id is found and its stored [tokenVersion] equals the
    decoded one; the tokens are then those the two helpers make for that
    user, and [res] is untouched.  Every throw of the service is an
    [AppError] with status 401, thrown after ["jrt"] was cleared; and the
    service throws whenever the token is missing, is rejected by
    [verify], or carries another version than the stored one.  When all
    checks pass and the helpers return, the tokens are returned. *)
Theorem refresh_only_for_current_token c res token :
  (∀ out, snd (RefreshTokenService c token res) = inr out →
     ∃ tk decoded,
       token = Some tk ∧ tk ≠ ""
       ∧ verify c tk (refreshSecret c) = inr decoded
       ∧ ShowUserService c (payload_id decoded) = inr (user out)
       ∧ tokenVersion (user out) = payload_tokenVersion decoded
       ∧ createAccessToken c (user out) = inr (newToken out)
       ∧ createRefreshToken c (user out) = inr (refreshToken out)
       ∧ fst (RefreshTokenService c token res) = res)
  ∧ (∀ e, snd (RefreshTokenService c token res) = inl e →
       (∃ message, e = AppError message 401)
       ∧ "jrt" ∈ clearedCookies (fst (RefreshTokenService c token res)))
  ∧ (¬ (∃ tk decoded u,
          token = Some tk ∧ tk ≠ ""
          ∧ verify c tk (refreshSecret c) = inr decoded
          ∧ ShowUserService c (payload_id decoded) = inr u
          ∧ tokenVersion u = payload_tokenVersion decoded) →
       ∃ message,
         snd (RefreshTokenService c token res) = inl (AppError message 401)
         ∧ "jrt" ∈ clearedCookies (fst (RefreshTokenService c token res)))
  ∧ (∀ tk decoded u access refresh,
       token = Some tk → tk ≠ "" →
       verify c tk (refreshSecret c) = inr decoded →
       ShowUserService c (payload_id decoded) = inr u →
       tokenVersion u = payload_tokenVersion decoded →
       createAccessToken c u = inr access →
       createRefreshToken c u = inr refresh →
       RefreshTokenService c token res = (res, inr (mkResponse u access refresh))).
Proof.
  unfold RefreshTokenService.
  destruct (missing token) eqn:Hmiss.
  { (* no token *)
    unfold mbind, clearCookie, mthrow. simpl. split_and!.
    - done.
    - intros e [= <-]. split; [by eexists|apply elem_of_snoc].
    - intros _. eexists. split; [done|apply elem_of_snoc].
    - intros tk ????? Hne. exfalso.
      assert (missing token = false) as Hf; [|congruence].
      apply missing_spec. by exists tk. }
  apply missing_spec in Hmiss as (tk & -> & Hne).
  unfold tryCatch, mbind, lift, clearCookie, mthrow, mret. simpl.
  destruct (verify c tk (refreshSecret c)) as [e|decoded] eqn:Hverify.
  { simpl. split_and!.
    - done.
    - intros e' [= <-]. split; [by eexists|apply elem_of_snoc].
    - intros _. eexists. split; [done|apply elem_of_snoc].
    - intros ? ? ? ? ? [= <-] _ ? ? ? ? ?; congruence. }
  destruct (ShowUserService c (payload_id decoded)) as [e|u] eqn:Huser.
  { simpl. split_and!.
    - done.
    - intros e' [= <-]. split; [by eexists|apply elem_of_snoc].
    - intros _. eexists. split; [done|apply elem_of_snoc].
    - intros ? ? ? ? ? [= <-] _ ? ? ? ? ?; congruence. }
  case_bool_decide as Hversion.
  { simpl. split_and!.
    - done.
    - intros e' [= <-]. split; [by eexists|].
      apply elem_of_app. left. apply elem_of_snoc.
    - intros _. eexists. split; [done|].
      apply elem_of_app. left. apply elem_of_snoc.
    - intros ? ? ? ? ? [= <-] _ ? ? ? ? ?; congruence. }
  assert (tokenVersion u = payload_tokenVersion decoded) as Hsame.
  { destruct (decide (tokenVersion u = payload_tokenVersion decoded)); [done|].
    by destruct Hversion. }
  destruct (createAccessToken c u) as [e|access] eqn:Haccess.
  { simpl. split_and!.
    - done.
    - intros e' [= <-]. split; [by eexists|apply elem_of_snoc].
    - intros Hno. destruct Hno. by exists tk, decoded, u.
    - intros ? ? ? ? ? [= <-] _ ? ? ? ? ?; congruence. }
  destruct (createRefreshToken c u) as [e|refresh] eqn:Hrefresh.
  { simpl. split_and!.
    - done.
    - intros e' [= <-]. split; [by eexists|apply elem_of_snoc].
    - intros Hno. destruct Hno. by exists tk, decoded, u.
    - intros ? ? ? ? ? [= <-] _ ? ? ? ? ?; congruence. }
  simpl. split_and!.
  - intros out [= <-]. exists tk, decoded. by split_and!.
  - done.
  - intros Hno. destruct Hno. by exists tk, decoded, u.
  - intros ? ? ? ? ? [= <-] _ ? ? ? ? ?.
    repeat match goal with
           | H : ?call = inr _, H' : ?call = inr _ |- _ =>
               rewrite H in H'; injection H' as <-
           end.
    reflexivity.
Qed.

(** The service run on the sample collaborators: a current token, a stale
    one (the cookie is cleared in the branch and again in the [catch]), a
    rejected one and a missing one. *)
Example refresh_runs :
  RefreshTokenService sampleAuth (Some "good") (mkRes [])
    = (mkRes [], inr (mkResponse (mkUser 1 [] 0) "access" "refresh"))
  ∧ RefreshTokenService sampleAuth (Some "stale") (mkRes [])
    = (mkRes ["jrt"; "jrt"], inl (AppError "Sessão expirada ou token inválido" 401))
  ∧ RefreshTokenService sampleAuth (Some "forged") (mkRes [])
    = (mkRes ["jrt"], inl (AppError "Sessão expirada ou token inválido" 401))
  ∧ RefreshTokenService sampleAuth None (mkRes [])
    = (mkRes ["jrt"], inl (AppError "Refresh token não fornecido" 401)).
Proof. split_and!; reflexivity. Qed.

End RefreshFacts.

(** * More facts about the reducer *)

Section ReducerMore.
Import Model TicketsList.

Implicit Types (s l : list Ticket) (t u v x : Ticket) (k : Z).

Lemma elem_of_mergeTicket l t x : x ∈ mergeTicket l t → x ∈ l ∨ x = t.
Proof.
  destruct (mergeTicket_cases l t) as [[_ ->]|(l1 & y & l2 & -> & _ & _ & ->)].
  - rewrite elem_of_app, list_elem_of_singleton. tauto.
  - case_bool_decide; rewrite ?elem_of_cons, !elem_of_app, ?elem_of_cons; tauto.
Qed.

Lemma mergeTicket_has_ticket l t : t ∈ mergeTicket l t.
Proof.
  destruct (mergeTicket_cases l t) as [[_ ->]|(l1 & y & l2 & -> & _ & _ & ->)].
  - apply elem_of_app. right. by apply list_elem_of_singleton.
  - case_bool_decide; rewrite ?elem_of_cons, ?elem_of_app, ?elem_of_cons; tauto.
Qed.

Lemma mergeTicket_keeps_other l t x :
  x ∈ l → tid x ≠ tid t → x ∈ mergeTicket l t.
Proof.
  intros Hin Hne.
  destruct (mergeTicket_cases l t) as [[_ ->]|(l1 & y & l2 & -> & Hy & _ & ->)].
  - apply elem_of_app. by left.
  - rewrite elem_of_app, elem_of_cons in Hin.
    assert (x ≠ y) by congruence.
    case_bool_decide; rewrite ?elem_of_cons, ?elem_of_app, ?elem_of_cons; tauto.
Qed.

Lemma elem_of_merge batch : ∀ l x,
  x ∈ foldl mergeTicket l batch → x ∈ l ∨ x ∈ batch.
Proof.
  induction batch as [|t batch IH]; intros l x; simpl; [tauto|].
  intros [Hin|Hin]%IH; [|right; by right].
  apply elem_of_mergeTicket in Hin as [?| ->]; [by left|right; by left].
Qed.

Lemma same_id_same_ticket l x y :
  NoDup (ids l) → x ∈ l → y ∈ l → tid x = tid y → x = y.
Proof.
  induction l as [|z l IH]; [by intros _ ?%not_elem_of_nil|].
  simpl. intros [Hz Hnd]%NoDup_cons Hx Hy Hid.
  apply elem_of_cons in Hx as [->|Hx]; apply elem_of_cons in Hy as [->|Hy].
  - done.
  - destruct Hz. rewrite Hid. unfold ids. apply list_elem_of_fmap. eauto.
  - destruct Hz. rewrite <- Hid. unfold ids. apply list_elem_of_fmap. eauto.
  - by apply IH.
Qed.

Lemma merge_NoDup batch : ∀ l, NoDup (ids l) → NoDup (ids (foldl mergeTicket l batch)).
Proof. intros l. apply (reducer_NoDup l (LOAD_TICKETS batch)). Qed.

(** X1. A merge neither loses an id nor invents one: the ids of the list
    after a batch are those of the list before and those of the batch. *)
Theorem merge_ids_are_union s batch k :
  k ∈ ids (reducer s (LOAD_TICKETS batch)) ↔ k ∈ ids s ∨ k ∈ ids batch.
Proof. simpl. apply elem_of_ids_merge. Qed.

(** X2. Last write wins.  In a list with distinct ids, after a batch the
    entry with the id of [t] is [t] itself, data included, when [t] is the
    last ticket of the batch with that id. *)
Theorem merge_last_write_wins s pre t post :
  NoDup (ids s) → tid t ∉ ids post →
  t ∈ reducer s (LOAD_TICKETS (pre ++ t :: post))
  ∧ ∀ x, x ∈ reducer s (LOAD_TICKETS (pre ++ t :: post)) → tid x = tid t → x = t.
Proof.
  intros Hnd Hlast. simpl. rewrite foldl_app. simpl.
  set (l := mergeTicket (foldl mergeTicket s pre) t).
  assert (t ∈ foldl mergeTicket l post) as Hin.
  { assert (t ∈ l) as Hl by apply mergeTicket_has_ticket.
    clearbody l. revert l Hl. induction post as [|v post IH]; intros l Hl; [done|].
    simpl. simpl in Hlast. apply not_elem_of_cons in Hlast as [Hv Hpost].
    apply IH; [done|]. by apply mergeTicket_keeps_other. }
  split; [done|]. intros x Hx Hid.
  apply (same_id_same_ticket (foldl mergeTicket l post)); [|done..].
  apply merge_NoDup. unfold l. by apply mergeTicket_NoDup, merge_NoDup.
Qed.

Lemma merge_last_write_wins_witness :
  mkTicket 2 0 None None "closed" 0 0 "new" ∈
    reducer [sampleTicket 1 0; sampleTicket 2 0]
      (LOAD_TICKETS ([sampleTicket 2 7] ++ mkTicket 2 0 None None "closed" 0 0 "new"
                     :: [sampleTicket 3 0])).
Proof.
  apply (merge_last_write_wins [sampleTicket 1 0; sampleTicket 2 0]
           [sampleTicket 2 7] (mkTicket 2 0 None None "closed" 0 0 "new")
           [sampleTicket 3 0]).
  - apply (bool_decide_unpack _). vm_compute. reflexivity.
  - apply (bool_decide_unpack _). vm_compute. reflexivity.
Defined.

Lemma filter_outside_mergeTicket (B : list Z) l t :
  tid t ∈ B →
  filter (λ x, tid x ∉ B) (mergeTicket l t) = filter (λ x, tid x ∉ B) l.
Proof.
  intros Hin.
  destruct (mergeTicket_cases l t) as [[_ ->]|(l1 & y & l2 & -> & Hy & _ & ->)].
  - rewrite filter_app, filter_cons_False by tauto. by rewrite app_nil_r.
  - assert (¬ (tid y ∉ B)) by (rewrite Hy; tauto).
    case_bool_decide;
      rewrite ?filter_cons_False by tauto;
      rewrite !filter_app; by rewrite ?filter_cons_False by tauto.
Qed.

Lemma filter_outside_merge (B : list Z) batch :
  (∀ t, t ∈ batch → tid t ∈ B) →
  ∀ l, filter (λ x, tid x ∉ B) (foldl mergeTicket l batch)
       = filter (λ x, tid x ∉ B) l.
Proof.
  induction batch as [|t batch IH]; intros HB l; simpl; [done|].
  rewrite IH.
  - apply filter_outside_mergeTicket, HB. by left.
  - intros v Hv. apply HB. by right.
Qed.

(** X3. Tickets whose id is not in the batch are untouched by the merge:
    they keep their data and their order among themselves. *)
Theorem merge_leaves_others s batch :
  filter (λ x, tid x ∉ ids batch) (reducer s (LOAD_TICKETS batch))
  = filter (λ x, tid x ∉ ids batch) s.
Proof.
  simpl. apply filter_outside_merge.
  intros t Ht. unfold ids. apply list_elem_of_fmap. eauto.
Qed.

Lemma foldl_merge_new_page batch : ∀ s,
  NoDup (ids batch) → (∀ k, k ∈ ids batch → k ∉ ids s) →
  foldl mergeTicket s batch = s ++ batch.
Proof.
  induction batch as [|t batch IH]; intros s Hnd Hnew; simpl.
  - by rewrite app_nil_r.
  - simpl in Hnd. apply NoDup_cons in Hnd as [Ht Hnd].
    rewrite mergeTicket_new by (apply Hnew; by left).
    rewrite IH; [by rewrite <- app_assoc|done|].
    intros k Hk. rewrite ids_app, elem_of_app. simpl.
    rewrite list_elem_of_singleton. intros [Hs| ->]; [|done].
    by apply (Hnew k); [right|].
Qed.

(** X4. A page whose ids are distinct and all new is appended as it is,
    in its order; on the empty list the result is the page. *)
Theorem merge_new_page_appends s batch :
  NoDup (ids batch) → (∀ k, k ∈ ids batch → k ∉ ids s) →
  reducer s (LOAD_TICKETS batch) = s ++ batch.
Proof. intros Hnd Hnew. simpl. by apply foldl_merge_new_page. Qed.

Lemma merge_new_page_appends_witness :
  reducer [sampleTicket 1 0] (LOAD_TICKETS [sampleTicket 2 4; sampleTicket 3 0])
  = [sampleTicket 1 0] ++ [sampleTicket 2 4; sampleTicket 3 0].
Proof.
  apply merge_new_page_appends.
  - apply (bool_decide_unpack _). vm_compute. reflexivity.
  - intros k Hk.
    apply elem_of_cons in Hk as [->|Hk]; [apply (bool_decide_unpack _); by vm_compute|].
    apply elem_of_cons in Hk as [->|Hk]; [apply (bool_decide_unpack _); by vm_compute|].
    by apply not_elem_of_nil in Hk.
Defined.

(** X5. An unread ticket whose id the list already knows ends at the front
    when it is the last of its batch. *)
Theorem merge_unread_known_goes_first s pre t :
  0 < unreadMessages t → tid t ∈ ids (s ++ pre) →
  head (reducer s (LOAD_TICKETS (pre ++ [t]))) = Some t.
Proof.
  intros Hunread Hknown. simpl. rewrite foldl_app. simpl.
  set (l := foldl mergeTicket s pre).
  assert (tid t ∈ ids l) as Hin.
  { apply elem_of_ids_merge. rewrite ids_app, elem_of_app in Hknown. tauto. }
  destruct (mergeTicket_cases l t) as [[Hnew _]|(l1 & x & l2 & _ & _ & _ & ->)]; [done|].
  by rewrite bool_decide_eq_true_2.
Qed.

Lemma merge_unread_known_goes_first_witness :
  head (reducer [sampleTicket 1 0; sampleTicket 2 0]
          (LOAD_TICKETS ([sampleTicket 3 0] ++ [sampleTicket 2 4])))
  = Some (sampleTicket 2 4).
Proof.
  apply merge_unread_known_goes_first.
  - simpl. lia.
  - apply (bool_decide_unpack _). vm_compute. reflexivity.
Defined.

Lemma mergeTicket_read_known l t :
  tid t ∈ ids l → unreadMessages t ≤ 0 → ids (mergeTicket l t) = ids l.
Proof.
  intros Hin Hread.
  destruct (mergeTicket_cases l t) as [[Hnew _]|(l1 & x & l2 & -> & Hx & _ & ->)]; [done|].
  rewrite bool_decide_eq_false_2 by lia.
  rewrite !ids_app. simpl. by rewrite Hx.
Qed.

(** X6. A batch of tickets that are all known to the list and none unread
    changes no position: the ids of the list are the same, in the same
    order. *)
Theorem merge_read_known_keeps_order s batch :
  (∀ t, t ∈ batch → tid t ∈ ids s ∧ unreadMessages t ≤ 0) →
  ids (reducer s (LOAD_TICKETS batch)) = ids s.
Proof.
  simpl. revert s. induction batch as [|t batch IH]; intros s Hall; simpl; [done|].
  destruct (Hall t) as [Hin Hread]; [by left|].
  rewrite IH.
  - by apply mergeTicket_read_known.
  - intros v Hv. rewrite mergeTicket_read_known by done. apply Hall. by right.
Qed.

Lemma merge_read_known_keeps_order_witness :
  ids (reducer [sampleTicket 1 0; sampleTicket 2 5; sampleTicket 3 0]
         (LOAD_TICKETS [sampleTicket 3 0; sampleTicket 2 0]))
  = ids [sampleTicket 1 0; sampleTicket 2 5; sampleTicket 3 0].
Proof.
  apply merge_read_known_keeps_order. intros t Ht.
  apply elem_of_cons in Ht as [->|Ht].
  { split; [apply (bool_decide_unpack _); by vm_compute|simpl; lia]. }
  apply elem_of_cons in Ht as [->|Ht].
  { split; [apply (bool_decide_unpack _); by vm_compute|simpl; lia]. }
  by apply not_elem_of_nil in Ht.
Defined.

(** X7. In a list with distinct ids, the length after a batch is the
    number of distinct ids of the list and the batch together: one entry
    per id, however often the batch repeats one. *)
Theorem merge_length_counts_ids s batch :
  NoDup (ids s) →
  length (reducer s (LOAD_TICKETS batch))
  = size (list_to_set (ids s ++ ids batch) : gset Z).
Proof.
  intros Hnd. simpl.
  assert (NoDup (ids (foldl mergeTicket s batch))) as Hnd' by by apply merge_NoDup.
  rewrite <- (length_fmap tid). fold (ids (foldl mergeTicket s batch)).
  rewrite <- (size_list_to_set (C:=gset Z)) by done.
  f_equal. apply set_eq. intros k.
  rewrite !elem_of_list_to_set, elem_of_app. apply elem_of_ids_merge.
Qed.

Lemma merge_length_counts_ids_witness :
  length (reducer [sampleTicket 1 0; sampleTicket 2 0]
            (LOAD_TICKETS [sampleTicket 2 1; sampleTicket 3 0; sampleTicket 3 1]))
  = size (list_to_set (ids [sampleTicket 1 0; sampleTicket 2 0]
                       ++ ids [sampleTicket 2 1; sampleTicket 3 0; sampleTicket 3 1])
          : gset Z).
Proof.
  apply merge_length_counts_ids.
  apply (bool_decide_unpack _). vm_compute. reflexivity.
Defined.

End ReducerMore.

(** * More facts about the component *)

Section ComponentMore.
Import Model TicketsList.

Implicit Types (s l : list Ticket) (t x : Ticket) (c : Component).

Lemma inQueues_spec queueIds t :
  inQueues queueIds t = true ↔
    queueId t = None ∨ ∃ q, queueId t = Some q ∧ q ∈ queueIds.
Proof.
  unfold inQueues. rewrite orb_true_iff, bool_decide_eq_true.
  destruct (queueId t) as [q|]; simpl.
  - rewrite includes_elem_of. naive_solver.
  - naive_solver.
Qed.

(** X8. For an operator of profile ["user"], the fetch effect never brings
    a ticket of a foreign queue into the list: if every ticket of the list
    has no queue or one of the operator's queues, so has every ticket of
    the list after the effect, whatever the server sent. *)
Theorem user_fetch_respects_queues queues tickets c :
  (∀ t, t ∈ ticketsList c →
        queueId t = None ∨ ∃ q, queueId t = Some q ∧ q ∈ map queue_id queues) →
  ∀ t, t ∈ ticketsList (onTicketsFetched "user" queues tickets c) →
       queueId t = None ∨ ∃ q, queueId t = Some q ∧ q ∈ map queue_id queues.
Proof.
  intros Hlist t. unfold onTicketsFetched, loadPayload. simpl.
  intros [Hin|Hin]%elem_of_merge; [by apply Hlist|].
  apply list_elem_of_filter in Hin as [Hq _]. by apply inQueues_spec.
Qed.

Lemma user_fetch_respects_queues_witness :
  queueId (mkTicket 1 0 (Some 4) None "open" 0 0 "") = None
  ∨ ∃ q, queueId (mkTicket 1 0 (Some 4) None "open" 0 0 "") = Some q
         ∧ q ∈ map queue_id [mkQueue 4].
Proof.
  apply (user_fetch_respects_queues [mkQueue 4]
           [mkTicket 1 0 (Some 4) None "open" 0 0 "";
            mkTicket 2 0 (Some 9) None "open" 0 0 "";
            mkTicket 3 0 None None "open" 0 0 ""]
           (mkComponent 1 [])).
  - simpl. intros t Ht. by apply not_elem_of_nil in Ht.
  - apply (bool_decide_unpack _). vm_compute. reflexivity.
Defined.

(** The ticket of queue 9 is left out for a ["user"] and kept for an
    ["admin"]. *)
Example fetch_filters_by_profile :
  ids (loadPayload "user" [mkQueue 4]
         [mkTicket 1 0 (Some 4) None "open" 0 0 "";
          mkTicket 2 0 (Some 9) None "open" 0 0 "";
          mkTicket 3 0 None None "open" 0 0 ""]) = [1; 3]
  ∧ ids (loadPayload "admin" [mkQueue 4]
           [mkTicket 1 0 (Some 4) None "open" 0 0 "";
            mkTicket 2 0 (Some 9) None "open" 0 0 "";
            mkTicket 3 0 None None "open" 0 0 ""]) = [1; 2; 3].
Proof. split; reflexivity. Qed.

Lemma loadPayload_sublist profile queues tickets :
  sublist (loadPayload profile queues tickets) tickets.
Proof.
  unfold loadPayload. destruct (String.eqb profile "user"); [|done].
  apply sublist_filter.
Qed.

(** X9. After a filter change, the first page fetched is shown as the
    server sent it, in its order and on page 1 (for a ["user"], without the
    tickets of foreign queues), provided the page repeats no id. *)
Theorem first_page_after_filter_change profile queues tickets c :
  NoDup (ids tickets) →
  onTicketsFetched profile queues tickets (onFilterChange c)
  = mkComponent 1 (loadPayload profile queues tickets).
Proof.
  intros Hnd. unfold onTicketsFetched, onFilterChange. simpl. f_equal.
  rewrite foldl_merge_new_page; [done| |].
  - apply (sublist_NoDup _ (ids tickets)); [exact Hnd|].
    unfold ids. apply fmap_sublist, loadPayload_sublist.
  - intros k _. apply not_elem_of_nil.
Qed.

Lemma first_page_after_filter_change_witness :
  onTicketsFetched "admin" [] [sampleTicket 5 0; sampleTicket 6 2]
    (onFilterChange (mkComponent 3 [sampleTicket 1 0]))
  = mkComponent 1 (loadPayload "admin" [] [sampleTicket 5 0; sampleTicket 6 2]).
Proof.
  apply first_page_after_filter_change.
  apply (bool_decide_unpack _). vm_compute. reflexivity.
Defined.

(** X10. The socket callback throws in one case only: an ["update"] event
    that carries no ticket. *)
Theorem socket_callback_throws_iff env data :
  onTicket env data = None ↔ action data = "update" ∧ ticket data = None.
Proof.
  unfold onTicket.
  destruct (String.eqb (action data) "update") eqn:Hact.
  - apply String.eqb_eq in Hact.
    destruct (ticket data) as [t|]; simpl; naive_solver.
  - apply String.eqb_neq in Hact. simpl. naive_solver.
Qed.

(** X11. An event whose action is neither ["update"] nor ["delete"]
    leaves the list as it is, with or without a ticket in it. *)
Theorem other_actions_are_ignored env s data :
  action data ≠ "update" → action data ≠ "delete" →
  handleTicketEvent env s data = Some s.
Proof.
  intros Hu%String.eqb_neq Hd%String.eqb_neq.
  unfold handleTicketEvent, onTicket. by rewrite Hu, Hd.
Qed.

Lemma other_actions_are_ignored_witness :
  handleTicketEvent (mkEnv (Some 3) true []) [sampleTicket 1 0]
    (mkSocketData "updateUnread" None) = Some [sampleTicket 1 0].
Proof. apply other_actions_are_ignored; simpl; congruence. Defined.

(** X12. The socket callback adds nothing but the ticket of the event, and
    that only when [shouldUpdateTicket] accepts it; and it keeps the ids of
    the list distinct. *)
Theorem socket_callback_adds_only_accepted env s data s' :
  handleTicketEvent env s data = Some s' →
  (∀ x, x ∈ s' →
     x ∈ s ∨ (action data = "update" ∧ ticket data = Some x
              ∧ shouldUpdateTicket env x = true))
  ∧ (NoDup (ids s) → NoDup (ids s')).
Proof.
  unfold handleTicketEvent, onTicket.
  destruct (String.eqb (action data) "update") eqn:Hact.
  - apply String.eqb_eq in Hact. rewrite Hact. simpl.
    destruct (ticket data) as [t|]; [|done]. simpl.
    destruct (shouldUpdateTicket env t) eqn:Hok; simpl; intros [= <-].
    + split.
      * intros x [Hx| ->]%elem_of_mergeTicket; [by left|by right].
      * apply mergeTicket_NoDup.
    + split; [by left|done].
  - simpl. destruct (String.eqb (action data) "delete"); simpl; intros [= <-].
    + split; [by intros x ?%not_elem_of_nil|intros _; apply NoDup_nil_2].
    + split; [by left|done].
Qed.

Lemma socket_callback_adds_only_accepted_witness :
  (∀ x, x ∈ [sampleTicket 1 0; sampleTicket 2 0] →
     x ∈ [sampleTicket 1 0]
     ∨ (action (mkSocketData "update" (Some (sampleTicket 2 0))) = "update"
        ∧ ticket (mkSocketData "update" (Some (sampleTicket 2 0))) = Some x
        ∧ shouldUpdateTicket (mkEnv (Some 3) false []) x = true))
  ∧ (NoDup (ids [sampleTicket 1 0]) → NoDup (ids [sampleTicket 1 0; sampleTicket 2 0])).
Proof.
  apply (socket_callback_adds_only_accepted (mkEnv (Some 3) false [])
           [sampleTicket 1 0] (mkSocketData "update" (Some (sampleTicket 2 0)))).
  reflexivity.
Defined.

(** *** Scrolling *)

Lemma handleScroll_step loading hasMore top height client c :
  ticketsList (handleScroll loading hasMore top height client c) = ticketsList c
  ∧ pageNumber c ≤ pageNumber (handleScroll loading hasMore top height client c)
               ≤ pageNumber c + 1
  ∧ (loading = true ∨ hasMore = false →
       handleScroll loading hasMore top height client c = c).
Proof.
  unfold handleScroll.
  destruct loading, hasMore; simpl;
    try destruct (height - top - client <? 100); simpl;
    (split_and!; try done; try lia; intros [|]; done).
Qed.

(** X13. Scrolling never touches the list and never goes back a page: over
    any sequence of scroll events the page number grows by at most one per
    event, and it does not move at all while every event finds the hook
    loading or without more pages. *)
Theorem scrolling_only_advances c (events : list ScrollEvent) :
  ticketsList (scrollAll c events) = ticketsList c
  ∧ pageNumber c ≤ pageNumber (scrollAll c events)
               ≤ pageNumber c + Z.of_nat (length events)
  ∧ (Forall (λ e, ev_loading e = true ∨ ev_hasMore e = false) events →
       scrollAll c events = c).
Proof.
  unfold scrollAll. revert c.
  induction events as [|e events IH]; intros c.
  { simpl. split_and!; try done; lia. }
  cbn [foldl].
  destruct (handleScroll_step (ev_loading e) (ev_hasMore e) (ev_scrollTop e)
              (ev_scrollHeight e) (ev_clientHeight e) c) as (Hl & Hp & Hsame).
  destruct (IH (handleScroll (ev_loading e) (ev_hasMore e) (ev_scrollTop e)
                  (ev_scrollHeight e) (ev_clientHeight e) c)) as (Hl' & Hp' & Hsame').
  split_and!.
  - by rewrite Hl'.
  - lia.
  - rewrite length_cons. lia.
  - intros [He Hrest]%Forall_cons. rewrite Hsame' by done. by apply Hsame.
Qed.

(** Near the end of the list, idle and with more pages, the page advances
    by one; away from the end it stays. *)
Example scroll_near_end :
  pageNumber (handleScroll false true 850 1000 100 (mkComponent 2 [])) = 3
  ∧ pageNumber (handleScroll false true 500 1000 100 (mkComponent 2 [])) = 2
  ∧ pageNumber (handleScroll true true 850 1000 100 (mkComponent 2 [])) = 2.
Proof. split_and!; reflexivity. Qed.

End ComponentMore.

(** * More facts about the query service *)

Section QueryMore.
Import Model ListTickets.

Implicit Types (c : Collaborators) (p : Request) (w : Where) (st : Store).

(** *** How the branches compose *)

Ltac split_branches :=
  repeat match goal with
         | |- context [if ?b then _ else _] => destruct b eqn:?
         end.

Lemma composeFilters_queue c p :
  w_queueId (fst (composeFilters c p)) = Some (queueIds p).
Proof. unfold composeFilters. split_branches; reflexivity. Qed.

Lemma composeFilters_or c p :
  w_or (fst (composeFilters c p)) =
    if truthy (Some (default "" (searchParam p)))
    then Some (SearchAny (lowerTrim c (default "" (searchParam p))))
    else if isTrue (showAll p) then None
         else Some (OwnerOrPending (userId p)).
Proof. unfold composeFilters. split_branches; reflexivity. Qed.

Lemma composeFilters_status c p :
  w_status (fst (composeFilters c p)) =
    if truthy (status p) then Some (default "" (status p)) else None.
Proof. unfold composeFilters. split_branches; reflexivity. Qed.

Lemma composeFilters_dates c p :
  w_createdAt (fst (composeFilters c p)) =
    (if truthy (date p)
     then Some (startOfDay c (default "" (date p)), endOfDay c (default "" (date p)))
     else None)
  ∧ w_updatedAt (fst (composeFilters c p)) =
    (if truthy (updatedAt p)
     then Some (startOfDay c (default "" (updatedAt p)),
                endOfDay c (default "" (updatedAt p)))
     else None).
Proof. unfold composeFilters. split; split_branches; reflexivity. Qed.

(** The tag branch changes the [id] entry only. *)
Lemma applyTags_other_entries c p w0 w :
  applyTags c p w0 = inr w →
  w_or w = w_or w0 ∧ w_queueId w = w_queueId w0 ∧ w_status w = w_status w0
  ∧ w_createdAt w = w_createdAt w0 ∧ w_updatedAt w = w_updatedAt w0
  ∧ w_unreadMessages w = w_unreadMessages w0.
Proof.
  unfold applyTags. destruct (bool_decide _).
  - destruct (resolveTags c (tags p)); simpl; [done|]. by intros [= <-].
  - by intros [= <-].
Qed.

(** Outside unread mode, the condition of the query is the composed one
    with at most the [id] entry added. *)
Lemma buildWhere_plain c p w :
  isTrue (withUnreadMessages p) = false → buildWhere c p = inr w →
  applyTags c p (fst (composeFilters c p)) = inr w.
Proof.
  intros Hflag. unfold buildWhere, applyUnread. by rewrite Hflag.
Qed.

Lemma buildWhere_unread c p w :
  isTrue (withUnreadMessages p) = true → buildWhere c p = inr w →
  ∃ operator,
    ShowUserService c (userId p) = inr operator
    ∧ applyTags c p
        (mkWhere (Some (OwnerOrPending (userId p)))
                 (Some (map queue_id (queues operator)))
                 None None None (Some 0) None) = inr w.
Proof.
  intros Hflag. unfold buildWhere, applyUnread. rewrite Hflag.
  destruct (ShowUserService c (userId p)) as [e|operator]; simpl; [done|].
  intros Hw. by exists operator.
Qed.

Lemma evalWhere_entries st w t :
  evalWhere st w t = true →
  entry (w_or w) (λ cl, evalOr st cl t) = true
  ∧ entry (w_queueId w) (λ qs, evalQueue qs t) = true
  ∧ entry (w_status w) (λ s, String.eqb (Model.status t) s) = true
  ∧ entry (w_createdAt w) (λ b, between b (createdAt t)) = true
  ∧ entry (w_updatedAt w) (λ b, between b (Model.updatedAt t)) = true
  ∧ entry (w_unreadMessages w) (λ n, bool_decide (n < unreadMessages t)) = true
  ∧ entry (w_id w) (λ l, bool_decide (tid t ∈ l)) = true.
Proof. unfold evalWhere. rewrite !andb_true_iff. tauto. Qed.

Lemma evalQueue_spec qs t :
  evalQueue qs t = true ↔ queueId t = None ∨ ∃ q, queueId t = Some q ∧ q ∈ qs.
Proof.
  unfold evalQueue. destruct (queueId t) as [q|].
  - rewrite bool_decide_eq_true. naive_solver.
  - naive_solver.
Qed.

(** X14. No query goes without a queue restriction.  Whatever the
    filters, the condition handed to the final query has a queue entry: the
    [queueIds] of the request, or in unread mode the queues of the
    operator; so every ticket it selects has no queue or one of these. *)
Theorem every_query_is_queue_restricted c p w :
  buildWhere c p = inr w →
  ∃ qs,
    w_queueId w = Some qs
    ∧ (isTrue (withUnreadMessages p) = false → qs = queueIds p)
    ∧ (isTrue (withUnreadMessages p) = true →
         ∃ operator, ShowUserService c (userId p) = inr operator
                     ∧ qs = map queue_id (queues operator))
    ∧ ∀ st t, evalWhere st w t = true →
              queueId t = None ∨ ∃ q, queueId t = Some q ∧ q ∈ qs.
Proof.
  intros Hw.
  assert (∀ qs, w_queueId w = Some qs →
            ∀ st t, evalWhere st w t = true →
                    queueId t = None ∨ ∃ q, queueId t = Some q ∧ q ∈ qs) as Hsem.
  { intros qs Hqs st t (_ & Hq & _)%evalWhere_entries.
    rewrite Hqs in Hq. by apply evalQueue_spec. }
  destruct (isTrue (withUnreadMessages p)) eqn:Hflag.
  - destruct (buildWhere_unread c p w Hflag Hw) as (operator & Huser & Htags).
    apply applyTags_other_entries in Htags as (_ & Hq & _). simpl in Hq.
    exists (map queue_id (queues operator)). split_and!; [done|done| |by apply Hsem].
    intros _. by exists operator.
  - apply buildWhere_plain, applyTags_other_entries in Hw as (_ & Hq & _); [|done].
    rewrite composeFilters_queue in Hq.
    exists (queueIds p). split_and!; [done|done|done|by apply Hsem].
Qed.

Lemma every_query_is_queue_restricted_witness :
  ∃ qs,
    w_queueId (mkWhere (Some (OwnerOrPending 1)) (Some [4]) None None None None None)
      = Some qs
    ∧ (isTrue (withUnreadMessages sampleRequest) = false → qs = queueIds sampleRequest).
Proof.
  destruct (every_query_is_queue_restricted (memory sampleStore) sampleRequest
              (mkWhere (Some (OwnerOrPending 1)) (Some [4]) None None None None None)
              eq_refl) as (qs & Hqs & Hplain & _).
  exists qs. split; [exact Hqs|exact Hplain].
Defined.

(** X15. Ownership.  In unread mode, and otherwise when there is no search
    and [showAll] is not ["true"], every ticket the condition selects
    belongs to the requesting operator or has the status ["pending"]. *)
Theorem owner_or_pending_unless_search_or_showAll c p w st t :
  isTrue (withUnreadMessages p) = true
  ∨ (truthy (Some (default "" (searchParam p))) = false ∧ isTrue (showAll p) = false) →
  buildWhere c p = inr w →
  evalWhere st w t = true →
  Model.userId t = Some (userId p) ∨ Model.status t = "pending".
Proof.
  intros Hmode Hw (Hor & _)%evalWhere_entries.
  assert (w_or w = Some (OwnerOrPending (userId p))) as Hentry.
  { destruct (isTrue (withUnreadMessages p)) eqn:Hflag.
    - destruct (buildWhere_unread c p w Hflag Hw) as (operator & _ & Htags).
      by apply applyTags_other_entries in Htags as (-> & _).
    - destruct Hmode as [?|[Hsearch Hall]]; [done|].
      apply buildWhere_plain, applyTags_other_entries in Hw as (-> & _); [|done].
      by rewrite composeFilters_or, Hsearch, Hall. }
  rewrite Hentry in Hor. simpl in Hor.
  apply orb_true_iff in Hor as [Hown|Hpending].
  - left. by apply bool_decide_eq_true in Hown.
  - right. by apply String.eqb_eq.
Qed.

Lemma owner_or_pending_unless_search_or_showAll_witness :
  Model.userId (mkTicket 2 3 (Some 4) None "pending" 0 9 "") = Some (userId sampleRequest)
  ∨ Model.status (mkTicket 2 3 (Some 4) None "pending" 0 9 "") = "pending".
Proof.
  apply (owner_or_pending_unless_search_or_showAll (memory sampleStore) sampleRequest
           (mkWhere (Some (OwnerOrPending 1)) (Some [4]) None None None None None)
           sampleStore (mkTicket 2 3 (Some 4) None "pending" 0 9 "")).
  - right. split; reflexivity.
  - reflexivity.
  - reflexivity.
Defined.

(** X16. A search replaces the ownership entry.  Outside unread mode, a
    non-empty [searchParam] leaves the condition with the search match in
    the place of owner-or-pending, whether [showAll] is set or not: the
    query then selects by search match and queue, not by operator. *)
Theorem search_replaces_ownership c p w :
  isTrue (withUnreadMessages p) = false →
  truthy (Some (default "" (searchParam p))) = true →
  buildWhere c p = inr w →
  w_or w = Some (SearchAny (lowerTrim c (default "" (searchParam p))))
  ∧ ∀ st t,
      evalWhere st w t = true →
      st_matches st (lowerTrim c (default "" (searchParam p))) t = true.
Proof.
  intros Hflag Hsearch Hw.
  apply buildWhere_plain, applyTags_other_entries in Hw as (Hor & _); [|done].
  rewrite composeFilters_or, Hsearch in Hor. split; [done|].
  intros st t (Hsel & _)%evalWhere_entries. by rewrite Hor in Hsel.
Qed.

Lemma search_replaces_ownership_witness :
  w_or (mkWhere (Some (SearchAny "ana")) (Some [4]) None None None None None)
  = Some (SearchAny (lowerTrim (memory sampleStore) (default "" (Some " Ana")))).
Proof.
  apply (search_replaces_ownership (memory sampleStore)
           (mkRequest (Some " Ana") None None None None None 7 None [4] [])
           (mkWhere (Some (SearchAny "ana")) (Some [4]) None None None None None));
    reflexivity.
Defined.

(** Operator 7 owns no ticket of the sample store and ticket 1 is not
    pending: without a search the operator sees ticket 2 only, with a
    search that matches everything also ticket 1 of operator 1. *)
Example search_shows_foreign_ticket :
  ids <$> (match ListTicketsServiceInternal (memory sampleStore)
                   (mkRequest None None None None None None 7 None [4] [])
                   (Some false) with
           | inr page => Some (tickets page)
           | inl _ => None
           end) = Some [2]
  ∧ ids <$> (match ListTicketsServiceInternal (memory sampleStore)
                     (mkRequest (Some " Ana") None None None None None 7 None [4] [])
                     (Some false) with
             | inr page => Some (tickets page)
             | inl _ => None
             end) = Some [2; 1].
Proof. split; reflexivity. Qed.

Lemma between_spec lo hi v :
  between (lo, hi) v = true →
  ∃ a b, lo = Int a ∧ hi = Int b ∧ a ≤ v ≤ b.
Proof.
  unfold between. destruct lo as [|a], hi as [|b]; try done.
  intros [?%Z.leb_le ?%Z.leb_le]%andb_true_iff. by exists a, b.
Qed.

(** X17. Outside unread mode, a given [status] restricts every selected
    ticket to that status, a given [date] its [createdAt] to the day's
    bounds and a given [updatedAt] its [updatedAt] to the day's bounds; a
    day whose bounds are not numbers selects nothing. *)
Theorem status_and_dates_restrict c p w st t :
  isTrue (withUnreadMessages p) = false →
  buildWhere c p = inr w →
  evalWhere st w t = true →
  (∀ s, status p = Some s → s ≠ "" → Model.status t = s)
  ∧ (∀ d, date p = Some d → d ≠ "" →
       ∃ a b, startOfDay c d = Int a ∧ endOfDay c d = Int b ∧ a ≤ createdAt t ≤ b)
  ∧ (∀ d, updatedAt p = Some d → d ≠ "" →
       ∃ a b, startOfDay c d = Int a ∧ endOfDay c d = Int b
              ∧ a ≤ Model.updatedAt t ≤ b).
Proof.
  intros Hflag Hw (_ & _ & Hs & Hc & Hu & _)%evalWhere_entries.
  apply buildWhere_plain, applyTags_other_entries in Hw
    as (_ & _ & Hws & Hwc & Hwu & _); [|done].
  destruct (composeFilters_dates c p) as [Hdc Hdu].
  rewrite Hws, composeFilters_status in Hs.
  rewrite Hwc, Hdc in Hc. rewrite Hwu, Hdu in Hu.
  split_and!.
  - intros s Hst Hne. rewrite Hst in Hs. simpl in Hs.
    rewrite (proj2 (String.eqb_neq s "")) in Hs by done. simpl in Hs.
    by apply String.eqb_eq.
  - intros d Hd Hne. rewrite Hd in Hc. simpl in Hc.
    rewrite (proj2 (String.eqb_neq d "")) in Hc by done. simpl in Hc.
    by apply between_spec.
  - intros d Hd Hne. rewrite Hd in Hu. simpl in Hu.
    rewrite (proj2 (String.eqb_neq d "")) in Hu by done. simpl in Hu.
    by apply between_spec.
Qed.

Lemma status_and_dates_restrict_witness :
  Model.status (mkTicket 2 3 (Some 4) None "pending" 0 9 "") = "pending".
Proof.
  destruct (status_and_dates_restrict (memory sampleStore)
              (mkRequest None None (Some "pending") None None None 1 None [4] [])
              (mkWhere (Some (OwnerOrPending 1)) (Some [4]) (Some "pending")
                       None None None None)
              sampleStore (mkTicket 2 3 (Some 4) None "pending" 0 9 "")
              eq_refl eq_refl eq_refl) as (Hstatus & _).
  apply (Hstatus "pending"); [reflexivity|discriminate].
Defined.

End QueryMore.

(** * More facts about errors, pages and controllers *)

Section ServiceMore.
Import Model ListTickets.

Implicit Types (c : Collaborators) (p : Request) (w : Where) (rt : Runtime).

Lemma tags_nonempty_decide p :
  tags p ≠ [] → bool_decide (0 < Z.of_nat (length (tags p))) = true.
Proof.
  intros Hne. apply bool_decide_eq_true_2. destruct (tags p); [done|]. simpl. lia.
Qed.

(** X18. An error of a collaborator is the error of the internal function,
    unchanged, in the order of the calls: the user lookup of unread mode,
    then the tag lookup, then the final query.  Nothing is retried and
    nothing is swallowed. *)
Theorem collaborator_errors_propagate c p e :
  (isTrue (withUnreadMessages p) = true →
   ShowUserService c (userId p) = inl e →
   ListTicketsServiceInternal c p (Some false) = inl e)
  ∧ (∀ w, applyUnread c p (fst (composeFilters c p)) = inr w →
          tags p ≠ [] → TicketTag_findAll c (tags p) = inl e →
          ListTicketsServiceInternal c p (Some false) = inl e)
  ∧ (∀ w, buildWhere c p = inr w →
          Ticket_findAndCountAll c
            (mkQuery w (snd (composeFilters c p)) true limit (offsetOf c p)
                     [("updatedAt", "DESC")] false) = inl e →
          ListTicketsServiceInternal c p (Some false) = inl e).
Proof.
  split_and!.
  - intros Hflag Huser. unfold ListTicketsServiceInternal, buildWhere, applyUnread.
    simpl. by rewrite Hflag, Huser.
  - intros w Hw Htags Hfail. unfold ListTicketsServiceInternal, buildWhere.
    simpl. rewrite Hw. simpl. unfold applyTags, resolveTags.
    by rewrite tags_nonempty_decide, Hfail.
  - intros w Hw Hfail. unfold ListTicketsServiceInternal. simpl.
    rewrite Hw. simpl. by rewrite Hfail.
Qed.

(** A store that has lost its operator: unread mode fails with the error
    of the user service. *)
Example unread_mode_without_operator :
  ListTicketsServiceInternal
    (memory (mkStore [] [] [] (λ _ _, true) (λ _, Int 0) (λ _, Int 10)))
    unreadRequest (Some false)
  = inl (AppError "ERR_NO_USER_FOUND" 404).
Proof. reflexivity. Qed.

(** X19. A call that nothing interleaves with gives what the internal
    function gives: its page, or its error rethrown unchanged.  Only an
    error named ["AbortError"] is turned into the empty page.  After the
    call no controller is registered. *)
Theorem service_passes_result_through c rt p :
  (∀ page, ListTicketsServiceInternal c p (Some false) = inr page →
           snd (ListTicketsService c rt p) = inr page)
  ∧ (∀ e, ListTicketsServiceInternal c p (Some false) = inl e →
          exn_name e ≠ Some "AbortError" →
          snd (ListTicketsService c rt p) = inl e)
  ∧ (∀ e, ListTicketsServiceInternal c p (Some false) = inl e →
          exn_name e = Some "AbortError" →
          snd (ListTicketsService c rt p) = inr emptyPage)
  ∧ currentAbortController (fst (ListTicketsService c rt p)) = None.
Proof.
  split_and!.
  - intros page Hpage. by rewrite empty_page_only_on_AbortError, Hpage.
  - intros e He Hname. rewrite empty_page_only_on_AbortError, He.
    by rewrite bool_decide_eq_false_2.
  - intros e He Hname. rewrite empty_page_only_on_AbortError, He.
    by rewrite bool_decide_eq_true_2.
  - unfold ListTicketsService.
    destruct (ListTicketsService_start rt p) as [rt' f]. reflexivity.
Qed.

(** X20. Starting a call allocates one fresh, unaborted controller,
    registers it, and aborts the controller registered before, if any, and
    no other: every other flag of the heap is as it was. *)
Theorem start_aborts_registered_only rt p :
  length (heap (fst (ListTicketsService_start rt p))) = S (length (heap rt))
  ∧ currentAbortController (fst (ListTicketsService_start rt p))
    = Some (length (heap rt))
  ∧ controller (snd (ListTicketsService_start rt p)) = length (heap rt)
  ∧ heap (fst (ListTicketsService_start rt p)) !! length (heap rt) = Some false
  ∧ ∀ j, (j < length (heap rt))%nat →
         heap (fst (ListTicketsService_start rt p)) !! j =
           if decide (currentAbortController rt = Some j) then Some true
           else heap rt !! j.
Proof.
  unfold ListTicketsService_start.
  destruct (currentAbortController rt) as [i|] eqn:Hcur; simpl.
  - rewrite !length_app, !length_insert. simpl. split_and!; try done; try lia.
    + rewrite lookup_app_r by (rewrite length_insert; lia).
      by rewrite length_insert, Nat.sub_diag.
    + intros j Hj. rewrite lookup_app_l by by rewrite length_insert.
      case_decide as Hij.
      * injection Hij as ->. by apply list_lookup_insert_eq.
      * apply list_lookup_insert_ne. congruence.
  - rewrite !length_app. simpl. split_and!; try done; try lia.
    + by rewrite list_lookup_middle.
    + intros j Hj. by rewrite lookup_app_l.
Qed.

(** X21. When a call settles it clears the registration, whichever
    controller is registered then: a call started next aborts nothing.  So
    a second call still waiting when the first settles is not aborted by a
    third. *)
Theorem settling_unregisters_any_controller c rt f p p1 p2 p3 :
  currentAbortController (fst (ListTicketsService_finish c rt f)) = None
  ∧ heap (fst (ListTicketsService_start
                 (fst (ListTicketsService_finish c rt f)) p))
    = heap rt ++ [false]
  ∧ superseded (run c [Start p1; Start p2; Finish 0%nat; Start p3]) 1 = false.
Proof. split_and!; reflexivity. Qed.

(** X22. When the page string is not a number, the offset is [NaN] and a
    returned page has [hasMore = false], whatever the data layer counted
    and returned. *)
Theorem nan_page_has_no_more c p signal page :
  toNumber c (default "1" (pageNumber p)) = NaN →
  ListTicketsServiceInternal c p signal = inr page →
  offsetOf c p = NaN ∧ hasMore page = false.
Proof.
  intros Hnan.
  assert (offsetOf c p = NaN) as Hoff by (unfold offsetOf; by rewrite Hnan).
  intros (w & total & rows & _ & _ & ->)%ListTicketsServiceInternal_inr.
  split; [done|]. simpl. by rewrite Hoff.
Qed.

Lemma nan_page_has_no_more_witness :
  offsetOf
    (mkCollaborators (λ _, inl (AppError "ERR_NO_USER_FOUND" 404)) (λ _, inr [])
       (λ _, inr (85, [sampleTicket 1 0])) (λ _, NaN) (λ s, s)
       (λ _, NaN) (λ _, NaN))
    (pageRequest "abc") = NaN
  ∧ hasMore (mkResponse [sampleTicket 1 0] 85 false) = false.
Proof.
  apply (nan_page_has_no_more
           (mkCollaborators (λ _, inl (AppError "ERR_NO_USER_FOUND" 404)) (λ _, inr [])
              (λ _, inr (85, [sampleTicket 1 0])) (λ _, NaN) (λ s, s)
              (λ _, NaN) (λ _, NaN))
           (pageRequest "abc") (Some false)); reflexivity.
Defined.

End ServiceMore.

(** * More facts about the token refresh *)

Section RefreshMore.
Import Model RefreshToken.

Implicit Types (c : Collaborators) (res : Res) (token : option string).

(** X23. The service touches no cookie but ["jrt"], and how often it
    clears it tells the outcome: not at all exactly when it returns tokens;
    twice exactly when the token is present and verified, the user is
    found and the stored version differs from the decoded one (once in the
    branch of the check and again in the [catch]); and once on every other
    failure. *)
Theorem refresh_clears_only_jrt c res token :
  ∃ n,
    clearedCookies (fst (RefreshTokenService c token res))
    = clearedCookies res ++ replicate n "jrt"
    ∧ (n ≤ 2)%nat
    ∧ (n = 0%nat ↔ ∃ out, snd (RefreshTokenService c token res) = inr out)
    ∧ (n = 2%nat ↔
         ∃ tk decoded u,
           token = Some tk ∧ tk ≠ ""
           ∧ verify c tk (refreshSecret c) = inr decoded
           ∧ ShowUserService c (payload_id decoded) = inr u
           ∧ tokenVersion u ≠ payload_tokenVersion decoded)
    ∧ (n = 1%nat ↔
         (∃ e, snd (RefreshTokenService c token res) = inl e)
         ∧ ¬ ∃ tk decoded u,
               token = Some tk ∧ tk ≠ ""
               ∧ verify c tk (refreshSecret c) = inr decoded
               ∧ ShowUserService c (payload_id decoded) = inr u
               ∧ tokenVersion u ≠ payload_tokenVersion decoded).
Proof.
  set (mismatch := ∃ tk decoded u,
         token = Some tk ∧ tk ≠ ""
         ∧ verify c tk (refreshSecret c) = inr decoded
         ∧ ShowUserService c (payload_id decoded) = inr u
         ∧ tokenVersion u ≠ payload_tokenVersion decoded).
  assert (∀ P : Prop, ¬ mismatch → (mismatch → P)) as Hskip by tauto.
  destruct token as [tk|].
  2:{ assert (¬ mismatch) as Hno by (by intros (? & ? & ? & ? & _)).
      exists 1%nat. simpl.
      split_and!; [done|lia|split; [done|by intros [? ?]]
                  |split; [done|by apply Hskip]
                  |split; [intros _; split; [eauto|done]|done]]. }
  destruct (String.eqb tk "") eqn:Hempty.
  { assert (¬ mismatch) as Hno.
    { intros (? & ? & ? & [= <-] & Hne & _). by apply String.eqb_eq in Hempty. }
    exists 1%nat. unfold RefreshTokenService, missing. rewrite Hempty. simpl.
    split_and!; [done|lia|split; [done|by intros [? ?]]
                |split; [done|by apply Hskip]
                |split; [intros _; split; [eauto|done]|done]]. }
  assert (tk ≠ "") as Hne by by apply String.eqb_neq.
  unfold RefreshTokenService, missing. rewrite Hempty.
  unfold tryCatch, mbind, lift, clearCookie, mthrow, mret. simpl.
  destruct (verify c tk (refreshSecret c)) as [e|decoded] eqn:Hverify; simpl.
  { assert (¬ mismatch) as Hno.
    { intros (? & ? & ? & [= <-] & _ & Hv & _). by rewrite Hverify in Hv. }
    exists 1%nat.
    split_and!; [done|lia|split; [done|by intros [? ?]]
                |split; [done|by apply Hskip]
                |split; [intros _; split; [eauto|done]|done]]. }
  destruct (ShowUserService c (payload_id decoded)) as [e|u] eqn:Huser; simpl.
  { assert (¬ mismatch) as Hno.
    { intros (? & ? & ? & [= <-] & _ & Hv & Hu & _).
      rewrite Hverify in Hv. injection Hv as <-. by rewrite Huser in Hu. }
    exists 1%nat.
    split_and!; [done|lia|split; [done|by intros [? ?]]
                |split; [done|by apply Hskip]
                |split; [intros _; split; [eauto|done]|done]]. }
  case_bool_decide as Hversion; simpl.
  { assert mismatch as Hyes by (by exists tk, decoded, u).
    exists 2%nat.
    split_and!; [by rewrite <- app_assoc|lia|split; [done|by intros [? ?]]
                |done
                |split; [done|by intros [_ ?]]]. }
  assert (¬ mismatch) as Hno.
  { intros (? & ? & ? & [= <-] & _ & Hv & Hu & Hdiff).
    rewrite Hverify in Hv. injection Hv as <-.
    rewrite Huser in Hu. injection Hu as <-. done. }
  destruct (createAccessToken c u) as [e|access]; simpl.
  { exists 1%nat.
    split_and!; [done|lia|split; [done|by intros [? ?]]
                |split; [done|by apply Hskip]
                |split; [intros _; split; [eauto|done]|done]]. }
  destruct (createRefreshToken c u) as [e|refresh]; simpl.
  { exists 1%nat.
    split_and!; [done|lia|split; [done|by intros [? ?]]
                |split; [done|by apply Hskip]
                |split; [intros _; split; [eauto|done]|done]]. }
  exists 0%nat.
  split_and!; [by rewrite app_nil_r|lia|split; [eauto|done]
              |split; [done|by apply Hskip]
              |split; [done|by intros [[? ?] _]]].
Qed.

(** X24. The caller sees two messages only: ["Refresh token não
    fornecido"] for a missing token, and ["Sessão expirada ou token
    inválido"] for every other failure.  The message of the version check
    and the errors of [verify] and of the user service never leave the
    service. *)
Theorem refresh_error_messages c res token e :
  snd (RefreshTokenService c token res) = inl e →
  (missing token = true ∧ e = AppError "Refresh token não fornecido" 401)
  ∨ (missing token = false ∧ e = AppError "Sessão expirada ou token inválido" 401).
Proof.
  unfold RefreshTokenService.
  destruct (missing token) eqn:Hmiss.
  { unfold mbind, clearCookie, mthrow. simpl. intros [= <-]. by left. }
  unfold tryCatch, mbind, lift, clearCookie, mthrow, mret. simpl.
  destruct (verify c _ (refreshSecret c)) as [?|decoded]; simpl.
  { intros [= <-]. by right. }
  destruct (ShowUserService c (payload_id decoded)) as [?|u]; simpl.
  { intros [= <-]. by right. }
  case_bool_decide; simpl.
  { intros [= <-]. by right. }
  destruct (createAccessToken c u) as [?|access]; simpl.
  { intros [= <-]. by right. }
  destruct (createRefreshToken c u) as [?|refresh]; simpl.
  { intros [= <-]. by right. }
  done.
Qed.

Lemma refresh_error_messages_witness :
  (missing (Some "stale") = true
   ∧ AppError "Sessão expirada ou token inválido" 401
     = AppError "Refresh token não fornecido" 401)
  ∨ (missing (Some "stale") = false
     ∧ AppError "Sessão expirada ou token inválido" 401
       = AppError "Sessão expirada ou token inválido" 401).
Proof.
  apply (refresh_error_messages sampleAuth (mkRes []) (Some "stale")).
  reflexivity.
Defined.

End RefreshMore.

(** * Calls in any interleaving *)

Section InterleavingFacts.
Import Model ListTickets.

Implicit Types (c : Collaborators) (w : World).

Lemma step_settledAsFinished c w s :
  settledAsFinished c w → settledAsFinished c (step c w s).
Proof.
  intros [Hentry Hsettled]. destruct s as [p|k]; unfold step.
  - pose proof (start_entry_not_aborted (runtime w) p) as Hfresh.
    destruct (ListTicketsService_start (runtime w) p) as [rt f].
    cbn [snd] in Hfresh. split; cbn [started settled runtime].
    + intros k g [Hold|[_ Hnew]]%lookup_app_Some; [by eapply Hentry|].
      destruct (k - length (started w))%nat as [|n]; simpl in Hnew; [|done].
      congruence.
    + intros k r Hin. destruct (Hsettled k r Hin) as (g & Hg & ->).
      exists g. split; [|done]. by apply lookup_app_l_Some.
  - destruct (started w !! k) as [f|] eqn:Hf; [|done].
    case_bool_decide; [done|].
    destruct (ListTicketsService_finish c (runtime w) f) as [rt r'] eqn:Hfin.
    split; cbn [started settled runtime]; [done|].
    intros j r [Hin|Hin%list_elem_of_singleton]%elem_of_app.
    + destruct (Hsettled j r Hin) as (g & Hg & ->). by exists g.
    + injection Hin as -> ->. exists f. split; [done|].
      change r' with (snd (rt, r')). by rewrite <- Hfin.
Qed.

Lemma run_settledAsFinished c steps : settledAsFinished c (run c steps).
Proof.
  unfold run.
  assert (settledAsFinished c initialWorld) as Hinit.
  { split; [done|]. by intros k r ?%not_elem_of_nil. }
  revert Hinit. generalize initialWorld.
  induction steps as [|s steps IH]; intros w Hw; simpl; [done|].
  by apply IH, step_settledAsFinished.
Qed.

(** X25. Being superseded changes no result.  In any interleaving of
    starts and settlements, every call that settled did so with what the
    internal function gives for its own parameters with an unaborted
    signal (an error named ["AbortError"] turned into the empty page): the
    abort of its controller by a later call has no effect on it. *)
Theorem every_call_settles_with_its_own_result c steps k r :
  resultOf (run c steps) k = Some r →
  ∃ f, started (run c steps) !! k = Some f
       ∧ r = match ListTicketsServiceInternal c (params f) (Some false) with
             | inr page => inr page
             | inl e => if bool_decide (exn_name e = Some "AbortError")
                        then inr emptyPage else inl e
             end.
Proof.
  intros Hres. destruct (run_settledAsFinished c steps) as [Hentry Hsettled].
  unfold resultOf in Hres.
  destruct (list_find _ (settled (run c steps))) as [[i [j r']]|] eqn:Hfind; [|done].
  simpl in Hres. injection Hres as ->.
  apply list_find_Some in Hfind as (Hlook & Hj & _). simpl in Hj. subst j.
  apply list_elem_of_lookup_2 in Hlook.
  destruct (Hsettled k r Hlook) as (f & Hf & ->).
  exists f. split; [done|].
  unfold ListTicketsService_finish. simpl. by rewrite (Hentry k f Hf).
Qed.

Lemma every_call_settles_with_its_own_result_witness :
  ∃ f, started (run (memory sampleStore) overlappingCalls) !! 0%nat = Some f
       ∧ inr (mkResponse
                [mkTicket 2 3 (Some 4) None "pending" 0 9 "";
                 mkTicket 1 0 None (Some 1) "open" 0 5 ""] 2 false)
         = match ListTicketsServiceInternal (memory sampleStore) (params f) (Some false) with
           | inr page => inr page
           | inl e => if bool_decide (exn_name e = Some "AbortError")
                      then inr emptyPage else inl e
           end.
Proof.
  apply (every_call_settles_with_its_own_result (memory sampleStore)
           overlappingCalls 0%nat). reflexivity.
Defined.

End InterleavingFacts.

(** * The tag lookup on the sample store *)

Section TagsMore.
Import Model ListTickets.

Lemma resolveTags_any_witness :
  ∃ resolved,
    resolveTags (memory sampleStore) [7; 8] = inr resolved
    ∧ NoDup resolved
    ∧ ∀ k, k ∈ resolved ↔
           ∃ r, r ∈ [mkTicketTag 1 7; mkTicketTag 2 7; mkTicketTag 1 8] ∧ ticketId r = k.
Proof.
  apply (resolveTags_any (memory sampleStore) [7; 8]
           [mkTicketTag 1 7; mkTicketTag 2 7; mkTicketTag 1 8]).
  reflexivity.
Defined.

End TagsMore.
